(** * kanzen/result: the asynchronous result algebra

    A shallow embedding of [packages/result/src/result/async/result-async.ts]
    (class [ResultAsync] and the functions [toAsync], [ok], [err], [safeTry],
    [infer]) together with the part of the host it runs on.

    - Values.  Types are erased at run time: success payloads, failure
      payloads and thrown faults are values of one type [Val], which the
      development is generic in.  Some values are thenables, which the
      host adopts when a promise is resolved with one ([Thenables]).
    - Calls.  A call completes normally or throws ([Completion]), may change
      the state, and may never return; code is written in the monad [Eff].
    - Promises.  A promise is represented by its eventual settlement
      ([Promise]); [then] runs the reaction that matches it and settles the
      promise it returns from what the reaction returns or throws.
    - Instances.  The instances of [ResultAsync] live in a store and are
      handled through references, so that identity and the private field
      [_promise] of each instance are explicit.
    - The synchronous [Result] of [../sync/result-sync], which the class
      calls into, is modelled from the specification. *)

From Stdlib Require Import ZArith String Lia.
From stdpp Require Import base list.

Set Default Proof Using "Type".

Declare Scope js_scope.
Delimit Scope js_scope with js.

(** ** Host model *)

(** The completion of a synchronous call: a normal return, or a thrown
    fault.  Any value can be thrown, so faults are values. *)
Inductive Completion (Val A : Type) : Type :=
| Normal (a : A)
| Throw (fault : Val).
Arguments Normal {Val A} a.
Arguments Throw {Val A} fault.

(** A promise, represented by its eventual settlement: a promise settles
    at most once and keeps its settlement.  [Pending] stands for a promise
    that never settles. *)
Inductive Promise (Val A : Type) : Type :=
| Fulfilled (value : A)
| Rejected (reason : Val)
| Pending.
Arguments Fulfilled {Val A} value.
Arguments Rejected {Val A} reason.
Arguments Pending {Val A}.

(** What a reaction callback hands back to the promise it settles,
    [T | PromiseLike<T>]: a plain value, or a promise to adopt. *)
Inductive Resolution (Val A : Type) : Type :=
| Plain (a : A)
| Thenable (p : Promise Val A).
Arguments Plain {Val A} a.
Arguments Thenable {Val A} p.

(** What the host takes a value of type [A] for when a promise is resolved
    with it: a plain value, or a thenable, with the promise the thenable
    stands for. *)
Class Thenables (Val A : Type) : Type :=
  resolution : A -> Resolution Val A.

(** A boolean is not a thenable. *)
#[global] Instance plain_bool (Val : Type) : Thenables Val bool := Plain.

(** The promise resolved with [r]: fulfilled with a plain value, or
    following the promise to adopt. *)
Definition resolved {Val A : Type} (r : Resolution Val A) : Promise Val A :=
  match r with
  | Plain a => Fulfilled a
  | Thenable p => p
  end.

(** Modelled from the spec: [Result<O, E>] of [../sync/result-sync], a
    closed union of exactly two variants, [Success] and [Failure]; they
    are [Ok] and [Err] in the source. *)
Inductive Result (Val : Type) : Type :=
| Ok (value : Val)
| Err (error : Val).
Arguments Ok {Val} value.
Arguments Err {Val} error.

(** Modelled from the spec: a [Result] of [../sync/result-sync] is not a
    thenable (it has no [then] among its operations). *)
#[global] Instance plain_Result (Val : Type) : Thenables Val (Result Val) :=
  Plain.

(** An instance of [class ResultAsync]: one private field. *)
Record ResultAsyncObj (Val : Type) : Type := mkResultAsync {
  _promise : Promise Val (Result Val)
}.
Arguments mkResultAsync {Val} _.
Arguments _promise {Val} _.

(** A reference to a [ResultAsync] instance: its index in the store. *)
Definition Ref : Type := nat.

(** The store of [ResultAsync] instances, and the world the user's
    callbacks can observe and change (a console, a spy's call log). *)
Record State (Val W : Type) : Type := mkState {
  heap : list (ResultAsyncObj Val);
  world : W
}.
Arguments mkState {Val W} _ _.
Arguments heap {Val W} _.
Arguments world {Val W} _.

(** Code that runs on the host: it reads and changes the state, and either
    completes ([Some]) or never returns ([None]: a callback that loops, or a
    reference to no object). *)
Definition Eff (Val W A : Type) : Type :=
  State Val W -> option (Completion Val A * State Val W).

Section Monad.
Context {Val W : Type}.
Local Abbreviation M := (Eff Val W).

Definition ret {A} (a : A) : M A :=
  fun s => Some (Normal a, s).

Definition throw {A} (fault : Val) : M A :=
  fun s => Some (Throw fault, s).

Definition bind {A B} (m : M A) (k : A -> M B) : M B :=
  fun s =>
    match m s with
    | Some (Normal a, s') => k a s'
    | Some (Throw fault, s') => Some (Throw fault, s')
    | None => None
    end.
End Monad.

Notation "'let*' x ':=' m 'in' k" := (bind m (fun x => k))
  (at level 10, x name, m at level 100, k at level 200,
   format "'[v' 'let*'  x  :=  m  'in' '/' k ']'") : js_scope.
Local Open Scope js_scope.

(** The first argument of [Promise.prototype.then], [onfulfilled?]: when it
    is left out the value passes through, and the result type is the
    promise's own ([TResult1 = T]). *)
Inductive Handler (Val W A : Type) : Type -> Type :=
| Absent : Handler Val W A A
| Call {B} (f : A -> Eff Val W (Resolution Val B)) : Handler Val W A B.
Arguments Absent {Val W A}.
Arguments Call {Val W A B} f.

Section Promises.
Context {Val W : Type}.
Local Abbreviation M := (Eff Val W).

(** The settlement a completion gives a promise. *)
Definition settled {A} (c : Completion Val A) : Promise Val A :=
  match c with
  | Normal a => Fulfilled a
  | Throw fault => Rejected fault
  end.

(** Settling a promise from the run of a job: the job's plain return
    value fulfills it, a returned promise is adopted, a thrown fault
    rejects it.  This is how a reaction settles the promise [then]
    returned, and how an [async] function settles the one it returns. *)
Definition settle {A} (job : M (Resolution Val A)) : M (Promise Val A) :=
  fun s =>
    match job s with
    | Some (Normal (Plain a), s') => Some (Normal (Fulfilled a), s')
    | Some (Normal (Thenable p), s') => Some (Normal p, s')
    | Some (Throw fault, s') => Some (Normal (Rejected fault), s')
    | None => None
    end.

(** [async function () { body }] *)
Definition async {A} (body : M (Resolution Val A)) : M (Promise Val A) :=
  settle body.

(** [Promise.resolve(x)] for an [x] that is not a thenable. *)
Definition Promise_resolve {A} (x : A) : Promise Val A := Fulfilled x.

(** [p.then(onFulfilled, onRejected)].  The reaction that matches the
    settlement of [p] runs once, a missing one passes the settlement
    through, and a promise that never settles runs neither.  Promises
    being their eventual settlements, the reaction runs here, at its
    registration: the reactions of one chain keep their order. *)
Definition Promise_then {A B} (p : Promise Val A) (onFulfilled : Handler Val W A B)
    (onRejected : option (Val -> M (Resolution Val B))) : M (Promise Val B) :=
  match p with
  | Fulfilled a =>
      match onFulfilled in Handler _ _ _ B0 return M (Promise Val B0) with
      | Absent => ret (Fulfilled a)
      | Call f => settle (f a)
      end
  | Rejected reason =>
      match onRejected with
      | None => ret (Rejected reason)
      | Some g => settle (g reason)
      end
  | Pending => ret Pending
  end.

(** [p.catch(onRejected)] is [p.then(undefined, onRejected)]. *)
Definition Promise_catch {A} (p : Promise Val A)
    (onRejected : Val -> M (Resolution Val A)) : M (Promise Val A) :=
  Promise_then p Absent (Some onRejected).

(** The state with one more instance, at the end of the store. *)
Definition alloc (promise : Promise Val (Result Val)) (s : State Val W)
    : State Val W :=
  mkState (heap s ++ [mkResultAsync promise]) (world s).

(** [new ResultAsync(promise)]: a reference to a fresh instance. *)
Definition new_ResultAsync (promise : Promise Val (Result Val)) : M Ref :=
  fun s => Some (Normal (length (heap s)), alloc promise s).

(** [this._promise] *)
Definition get_promise (this : Ref) : M (Promise Val (Result Val)) :=
  fun s =>
    match heap s !! this with
    | Some obj => Some (Normal (_promise obj), s)
    | None => None
    end.
End Promises.

(** ** The synchronous result *)

Module ResultSync.
Section ResultSync.
Context {Val W : Type}.
Local Abbreviation M := (Eff Val W).

(** Modelled from the spec: [okSync] of [../sync/result-sync], the
    success constructor. *)
Definition okSync (value : Val) : Result Val := Ok value.

(** Modelled from the spec: [errSync] of [../sync/result-sync], the
    failure constructor. *)
Definition errSync (error : Val) : Result Val := Err error.

(** Modelled from the spec: [Result.isOk] of [../sync/result-sync]. *)
Definition isOk (res : Result Val) : bool :=
  match res with Ok _ => true | Err _ => false end.

(** Modelled from the spec: [Result.isErr] of [../sync/result-sync]. *)
Definition isErr (res : Result Val) : bool :=
  match res with Ok _ => false | Err _ => true end.

(** Modelled from the spec: [Result.unwrap] of [../sync/result-sync],
    which returns the success payload and raises on a failure.  The fault
    raised is the failure payload itself: the package's documentation has
    "throws the error if Err", and its tests expect
    [err("new error")] unwrapped to reject with ["new error"]. *)
Definition unwrap (res : Result Val) : M Val :=
  match res with
  | Ok value => ret value
  | Err error => throw error
  end.

(** Modelled from the spec: [Result.unwrapOr] of [../sync/result-sync]. *)
Definition unwrapOr (res : Result Val) (fallback : Val) : Val :=
  match res with
  | Ok value => value
  | Err _ => fallback
  end.

(** Modelled from the spec: [Result.match] of [../sync/result-sync],
    which applies exactly one of the two functions, by variant. *)
Definition match_ {T} (res : Result Val)
    (ok : Val -> M T) (err : Val -> M T) : M T :=
  match res with
  | Ok value => ok value
  | Err error => err error
  end.

(** Modelled from the spec: [Result.map] of [../sync/result-sync]; a
    fault of [fn] propagates. *)
Definition map (res : Result Val) (fn : Val -> M Val) : M (Result Val) :=
  match res with
  | Ok value => let* x := fn value in ret (Ok x)
  | Err error => ret (Err error)
  end.

(** Modelled from the spec: [Result.mapErr] of [../sync/result-sync],
    the dual of [map]. *)
Definition mapErr (res : Result Val) (fn : Val -> M Val) : M (Result Val) :=
  match res with
  | Ok value => ret (Ok value)
  | Err error => let* x := fn error in ret (Err x)
  end.

(** Modelled from the spec: [Result.andThen] of [../sync/result-sync],
    which returns the result of [fn] as it is and skips [fn] on a
    failure. *)
Definition andThen (res : Result Val) (fn : Val -> M (Result Val))
    : M (Result Val) :=
  match res with
  | Ok value => fn value
  | Err error => ret (Err error)
  end.

(** Modelled from the spec: [Result.orElse] of [../sync/result-sync],
    the dual of [andThen]. *)
Definition orElse (res : Result Val) (fn : Val -> M (Result Val))
    : M (Result Val) :=
  match res with
  | Ok value => ret (Ok value)
  | Err error => fn error
  end.

(** Modelled from the spec: [Result.andTee] of [../sync/result-sync],
    which runs [fn] for its effect on a success, drops what it returns
    and returns the receiver; a fault of [fn] propagates. *)
Definition andTee (res : Result Val) (fn : Val -> M Val) : M (Result Val) :=
  match res with
  | Ok value => let* dropped := fn value in ret res
  | Err _ => ret res
  end.

(** Modelled from the spec: [Result.orTee] of [../sync/result-sync],
    the dual of [andTee]. *)
Definition orTee (res : Result Val) (fn : Val -> M Val) : M (Result Val) :=
  match res with
  | Ok _ => ret res
  | Err error => let* dropped := fn error in ret res
  end.
End ResultSync.
End ResultSync.

(** ** The asynchronous result *)

(** What a transformer handed to [andThen] or [orElse] returns, as the
    operator tells the shapes apart at run time. *)
Inductive Returned (Val : Type) : Type :=
| ReturnedResultAsync (newValue : Ref)
    (** an instance of [ResultAsync] *)
| ReturnedPromise (newValue : Promise Val (Result Val))
    (** a [Promise<Result>], as an [async] transformer returns *)
| ReturnedResult (newValue : Result Val).
    (** a plain [Result]: outside the declared overloads, accepted at
        run time *)
Arguments ReturnedResultAsync {Val} newValue.
Arguments ReturnedPromise {Val} newValue.
Arguments ReturnedResult {Val} newValue.

(** The argument of [safeTry]. *)
Record SafeArgs (Val W : Type) : Type := mkSafeArgs {
  try_ : list Val -> Eff Val W (Promise Val Val);
  catch_ : option (Val -> Eff Val W Val)
}.
Arguments mkSafeArgs {Val W} _ _.
Arguments try_ {Val W} _.
Arguments catch_ {Val W} _.

Module ResultAsync.
Section ResultAsync.
Context {Val W : Type} {thenables : Thenables Val Val}.
Local Abbreviation M := (Eff Val W).
Import ResultSync.

(** [then(okFn?, errFn?)] *)
Definition then_ {B} (this : Ref) (okFn : Handler Val W (Result Val) B)
    (errFn : option (Val -> M (Resolution Val B))) : M (Promise Val B) :=
  let* p := get_promise this in
  Promise_then p okFn errFn.

(** [async isOk()] *)
Definition isOk (this : Ref) : M (Promise Val bool) :=
  async (
    let* p := get_promise this in
    let* q := Promise_then p
                (Call (fun res => ret (Plain (ResultSync.isOk res)))) None in
    ret (Thenable q)).

(** [async isErr()] *)
Definition isErr (this : Ref) : M (Promise Val bool) :=
  async (
    let* p := get_promise this in
    let* q := Promise_then p
                (Call (fun res => ret (Plain (ResultSync.isErr res)))) None in
    ret (Thenable q)).

(** [async unwrap()]: the reaction returns the payload itself, which the
    host adopts when it is a thenable. *)
Definition unwrap (this : Ref) : M (Promise Val Val) :=
  async (
    let* p := get_promise this in
    let* q := Promise_then p
                (Call (fun res =>
                         let* x := ResultSync.unwrap res in
                         ret (resolution x)))
                None in
    ret (Thenable q)).

(** [async unwrapOr(value)]: the reaction returns the payload or [value]
    itself. *)
Definition unwrapOr (this : Ref) (value : Val) : M (Promise Val Val) :=
  async (
    let* p := get_promise this in
    let* q := Promise_then p
                (Call (fun res =>
                         ret (resolution (ResultSync.unwrapOr res value))))
                None in
    ret (Thenable q)).

(** [async match(args)]: the reaction returns what the callback
    returned, which may be a thenable (the callback may be [async]). *)
Definition match_ {T} {thenablesT : Thenables Val T} (this : Ref)
    (ok : Val -> M T) (err : Val -> M T) : M (Promise Val T) :=
  async (
    let* p := get_promise this in
    let* q := Promise_then p
                (Call (fun res =>
                         let* x := ResultSync.match_ res ok err in
                         ret (resolution x)))
                None in
    ret (Thenable q)).

(** [map(fn)] *)
Definition map (this : Ref) (fn : Val -> M Val) : M Ref :=
  let* p := get_promise this in
  let* q := Promise_then p
              (Call (fun res =>
                       let* x := ResultSync.map res fn in ret (Plain x)))
              None in
  new_ResultAsync q.

(** [mapErr(fn)] *)
Definition mapErr (this : Ref) (fn : Val -> M Val) : M Ref :=
  let* p := get_promise this in
  let* q := Promise_then p
              (Call (fun res =>
                       let* x := ResultSync.mapErr res fn in ret (Plain x)))
              None in
  new_ResultAsync q.

(** What the reaction of [andThen] and [orElse] returns for the value of
    the transformer: the [_promise] of a [ResultAsync], anything else as
    it is. *)
Definition unwrapped (newValue : Returned Val)
    : M (Resolution Val (Result Val)) :=
  match newValue with
  | ReturnedResultAsync r =>
      let* p := get_promise r in ret (Thenable p)
  | ReturnedPromise p => ret (Thenable p)
  | ReturnedResult res => ret (Plain res)
  end.

(** [andThen(fn)] *)
Definition andThen (this : Ref) (fn : Val -> M (Returned Val)) : M Ref :=
  let* p := get_promise this in
  let* promise :=
    Promise_then p
      (Call (fun res =>
               ResultSync.match_ res
                 (fun ok =>
                    let* newValue := fn ok in
                    unwrapped newValue)
                 (fun error =>
                    ret (Thenable (Promise_resolve (errSync error))))))
      None in
  new_ResultAsync promise.

(** [orElse(fn)] *)
Definition orElse (this : Ref) (fn : Val -> M (Returned Val)) : M Ref :=
  let* p := get_promise this in
  let* promise :=
    Promise_then p
      (Call (fun res =>
               ResultSync.match_ res
                 (fun ok =>
                    ret (Thenable (Promise_resolve (okSync ok))))
                 (fun error =>
                    let* errValue := fn error in
                    unwrapped errValue)))
      None in
  new_ResultAsync promise.

(** [andTee(fn)] *)
Definition andTee (this : Ref) (fn : Val -> M Val) : M Ref :=
  let* p := get_promise this in
  let* q := Promise_then p
              (Call (fun res =>
                       let* x := ResultSync.andTee res fn in ret (Plain x)))
              None in
  new_ResultAsync q.

(** [orTee(fn)] *)
Definition orTee (this : Ref) (fn : Val -> M Val) : M Ref :=
  let* p := get_promise this in
  let* q := Promise_then p
              (Call (fun res =>
                       let* x := ResultSync.orTee res fn in ret (Plain x)))
              None in
  new_ResultAsync q.

(** [toAsync(result)] *)
Definition toAsync (result : Result Val) : M Ref :=
  new_ResultAsync (Promise_resolve result).

(** [ok(okValue)] *)
Definition ok (okValue : Val) : M Ref :=
  new_ResultAsync (Promise_resolve (okSync okValue)).

(** [err(errorValue)] *)
Definition err (errorValue : Val) : M Ref :=
  new_ResultAsync (Promise_resolve (errSync errorValue)).

(** [safeTry(safeArgs)] *)
Definition safeTry (safeArgs : SafeArgs Val W) : list Val -> M Ref :=
  fun args =>
    let* p := try_ safeArgs args in
    let* p1 := Promise_then p
                 (Call (fun res => ret (Plain (okSync res)))) None in
    let* p2 := Promise_catch p1
                 (fun error =>
                    match catch_ safeArgs with
                    | Some translate =>
                        let* e := translate error in
                        ret (Plain (errSync e))
                    | None => ret (Plain (errSync error))
                    end) in
    new_ResultAsync p2.

(** [infer(fn)] *)
Definition infer {TArgs TResult : Type} (fn : TArgs -> TResult)
    : TArgs -> TResult :=
  fn.
End ResultAsync.
End ResultAsync.

(** ** Awaiting *)

Section Await.
Context {Val W : Type}.
Local Abbreviation M := (Eff Val W).

(** A computation that never returns. *)
Definition never {A} : M A := fun _ => None.

(** Resolving a promise with the instance [a], which is a thenable: the
    host calls [a.then] with the two resolving functions of the promise,
    which settle it. *)
Definition resolve_with (a : Ref) : M (Promise Val (Result Val)) :=
  ResultAsync.then_ a
    (Call (fun value => ret (Plain value)))
    (Some (fun reason => throw reason)).

(** [await a] for a [ResultAsync] instance [a]: the awaiting code resumes
    with the value, or with the reason thrown, or never. *)
Definition await_ (a : Ref) : M (Result Val) :=
  let* p := resolve_with a in
  match p with
  | Fulfilled value => ret value
  | Rejected reason => throw reason
  | Pending => never
  end.
End Await.

(** ** Sequences of operator calls *)

(** A call of one of the six operators, with its transformer. *)
Inductive Operator (Val W : Type) : Type :=
| OpMap (fn : Val -> Eff Val W Val)
| OpMapErr (fn : Val -> Eff Val W Val)
| OpAndThen (fn : Val -> Eff Val W (Returned Val))
| OpOrElse (fn : Val -> Eff Val W (Returned Val))
| OpAndTee (fn : Val -> Eff Val W Val)
| OpOrTee (fn : Val -> Eff Val W Val).
Arguments OpMap {Val W} fn.
Arguments OpMapErr {Val W} fn.
Arguments OpAndThen {Val W} fn.
Arguments OpOrElse {Val W} fn.
Arguments OpAndTee {Val W} fn.
Arguments OpOrTee {Val W} fn.

(** Code that touches the world only, not the store of instances: the
    transformers of a synchronous chain. *)
Definition EffW (Val W A : Type) : Type :=
  W -> option (Completion Val A * W).

(** The shape in which a transformer of a synchronous chain is handed to
    the asynchronous [andThen] and [orElse]. *)
Inductive Shape : Type :=
| AsResultAsync   (** [(x) => toAsync(fn(x))] *)
| AsPromise       (** [async (x) => fn(x)] *)
| AsResult.       (** [fn] itself *)

(** A step of a synchronous chain. *)
Inductive SyncStep (Val W : Type) : Type :=
| SMap (fn : Val -> EffW Val W Val)
| SMapErr (fn : Val -> EffW Val W Val)
| SAndThen (shape : Shape) (fn : Val -> EffW Val W (Result Val))
| SOrElse (shape : Shape) (fn : Val -> EffW Val W (Result Val))
| SAndTee (fn : Val -> EffW Val W Val)
| SOrTee (fn : Val -> EffW Val W Val).
Arguments SMap {Val W} fn.
Arguments SMapErr {Val W} fn.
Arguments SAndThen {Val W} shape fn.
Arguments SOrElse {Val W} shape fn.
Arguments SAndTee {Val W} fn.
Arguments SOrTee {Val W} fn.

Section Chains.
Context {Val W : Type}.
Local Abbreviation M := (Eff Val W).

(** The shape the six operators share: a reaction on the wrapped
    promise, and a new instance around the promise [then] returned. *)
Definition derive (this : Ref)
    (cb : Result Val -> M (Resolution Val (Result Val))) : M Ref :=
  let* p := get_promise this in
  let* q := Promise_then p (Call cb) None in
  new_ResultAsync q.

(** [this.op(fn)] *)
Definition call (this : Ref) (op : Operator Val W) : M Ref :=
  match op with
  | OpMap fn => ResultAsync.map this fn
  | OpMapErr fn => ResultAsync.mapErr this fn
  | OpAndThen fn => ResultAsync.andThen this fn
  | OpOrElse fn => ResultAsync.orElse this fn
  | OpAndTee fn => ResultAsync.andTee this fn
  | OpOrTee fn => ResultAsync.orTee this fn
  end.

(** Operator calls one after the other, each on the instance it names;
    the instances they return, in order. *)
Fixpoint calls (script : list (Ref * Operator Val W)) : M (list Ref) :=
  match script with
  | [] => ret []
  | (this, op) :: rest =>
      let* r := call this op in
      let* rs := calls rest in
      ret (r :: rs)
  end.

(** Code that leaves the instances of the store as they are: it can
    only add new ones. *)
Definition extending {A} (m : M A) : Prop :=
  forall s c s', m s = Some (c, s') -> heap s `prefix_of` heap s'.

(** A transformer that, on every argument, leaves the instances of the
    store as they are.  ([_promise] is private and read-only, so user
    code has no other way.) *)
Definition extends {A B} (fn : A -> M B) : Prop :=
  forall a, extending (fn a).

(** The transformer of an operator call leaves the instances of the store
    as they are. *)
Definition transformer_extends (op : Operator Val W) : Prop :=
  match op with
  | OpMap fn | OpMapErr fn | OpAndTee fn | OpOrTee fn => extends fn
  | OpAndThen fn | OpOrElse fn => extends fn
  end.

(** Each call of the script is on an instance that is in the store when
    the call is made: one of the store at the start, or one that an
    earlier call or its transformer has made. *)
Fixpoint on_instances (script : list (Ref * Operator Val W))
    (s : State Val W) : Prop :=
  match script with
  | [] => True
  | (this, op) :: rest =>
      this < length (heap s) /\
      forall r s1, call this op s = Some (Normal r, s1) -> on_instances rest s1
  end.

(** A transformer that returns, or throws, on every argument and in every
    state: it does not loop. *)
Definition returns {A B} (fn : A -> M B) : Prop :=
  forall a s, exists c s', fn a s = Some (c, s').

(** A transformer of [andThen] or [orElse] that returns or throws on every
    argument, and whose [ResultAsync], when it returns one, is an instance
    of the store. *)
Definition returns_instance (fn : Val -> M (Returned Val)) : Prop :=
  forall a s, exists c s',
    fn a s = Some (c, s') /\
    forall r, c = Normal (ReturnedResultAsync r) -> r < length (heap s').

(** The transformer of an operator call does not loop. *)
Definition transformer_returns (op : Operator Val W) : Prop :=
  match op with
  | OpMap fn | OpMapErr fn | OpAndTee fn | OpOrTee fn => returns fn
  | OpAndThen fn | OpOrElse fn => returns_instance fn
  end.

(** Running store-free code on the host. *)
Definition lift {A} (m : EffW Val W A) : M A :=
  fun s =>
    match m (world s) with
    | Some (c, w) => Some (c, mkState (heap s) w)
    | None => None
    end.

(** One step of a synchronous chain, on the synchronous result. *)
Definition sync_step (res : Result Val) (step : SyncStep Val W)
    : M (Result Val) :=
  match step with
  | SMap fn => ResultSync.map res (fun x => lift (fn x))
  | SMapErr fn => ResultSync.mapErr res (fun x => lift (fn x))
  | SAndThen _ fn => ResultSync.andThen res (fun x => lift (fn x))
  | SOrElse _ fn => ResultSync.orElse res (fun x => lift (fn x))
  | SAndTee fn => ResultSync.andTee res (fun x => lift (fn x))
  | SOrTee fn => ResultSync.orTee res (fun x => lift (fn x))
  end.

(** [res.step1(fn1).step2(fn2)...] *)
Fixpoint sync_chain (steps : list (SyncStep Val W)) (res : Result Val)
    : M (Result Val) :=
  match steps with
  | [] => ret res
  | step :: rest =>
      let* r := sync_step res step in
      sync_chain rest r
  end.

(** A transformer returning a [Result], in one of the shapes the
    asynchronous operators take. *)
Definition shaped (shape : Shape) (fn : Val -> EffW Val W (Result Val))
    : Val -> M (Returned Val) :=
  fun x =>
    match shape with
    | AsResultAsync =>
        let* r := lift (fn x) in
        let* a := ResultAsync.toAsync r in
        ret (ReturnedResultAsync a)
    | AsPromise =>
        let* p := async (let* r := lift (fn x) in ret (Plain r)) in
        ret (ReturnedPromise p)
    | AsResult =>
        let* r := lift (fn x) in
        ret (ReturnedResult r)
    end.

(** The same step, as a call of the asynchronous operator. *)
Definition async_step (step : SyncStep Val W) : Operator Val W :=
  match step with
  | SMap fn => OpMap (fun x => lift (fn x))
  | SMapErr fn => OpMapErr (fun x => lift (fn x))
  | SAndThen shape fn => OpAndThen (shaped shape fn)
  | SOrElse shape fn => OpOrElse (shaped shape fn)
  | SAndTee fn => OpAndTee (fun x => lift (fn x))
  | SOrTee fn => OpOrTee (fun x => lift (fn x))
  end.

(** [a.step1(fn1).step2(fn2)...] on a [ResultAsync] instance. *)
Fixpoint async_chain (steps : list (SyncStep Val W)) (a : Ref) : M Ref :=
  match steps with
  | [] => ret a
  | step :: rest =>
      let* r := call a (async_step step) in
      async_chain rest r
  end.

(** The promise a transformer's return value stands for, in the state
    the transformer returned in. *)
Definition eventual (newValue : Returned Val) (s : State Val W)
    : option (Promise Val (Result Val)) :=
  match newValue with
  | ReturnedResultAsync r => _promise <$> heap s !! r
  | ReturnedPromise p => Some p
  | ReturnedResult res => Some (Fulfilled res)
  end.
End Chains.

(** ** Pipelines *)

Section Pipelines.
Context {Val W : Type}.
Local Abbreviation M := (Eff Val W).

(** [a.op1(fn1).op2(fn2)...]: each operator is called on the instance the
    one before it returned. *)
Fixpoint chain (ops : list (Operator Val W)) (a : Ref) : M Ref :=
  match ops with
  | [] => ret a
  | op :: rest =>
      let* r := call a op in
      chain rest r
  end.

(** The operators that hand a success to their transformer: [map],
    [andThen] and [andTee].  The other three hand it a failure. *)
Definition on_success (op : Operator Val W) : bool :=
  match op with
  | OpMap _ | OpAndThen _ | OpAndTee _ => true
  | OpMapErr _ | OpOrElse _ | OpOrTee _ => false
  end.

(** Whether [op] leaves its transformer alone on a receiver settled as
    [p]. *)
Definition skips (op : Operator Val W) (p : Promise Val (Result Val)) : bool :=
  match p with
  | Fulfilled (Ok _) => negb (on_success op)
  | Fulfilled (Err _) => on_success op
  | Rejected _ | Pending => true
  end.

(** The state with [n] more instances, each wrapping [promise]. *)
Fixpoint allocs (n : nat) (promise : Promise Val (Result Val))
    (s : State Val W) : State Val W :=
  match n with
  | O => s
  | S n' => allocs n' promise (alloc promise s)
  end.

(** The settlement of [p.then(f)] for a function [f] that returns a plain
    value and has no effect. *)
Definition promise_map {A B} (f : A -> B) (p : Promise Val A)
    : Promise Val B :=
  match p with
  | Fulfilled a => Fulfilled (f a)
  | Rejected reason => Rejected reason
  | Pending => Pending
  end.

(** Two runs resolve alike: both never return, or both return an
    instance; then the two instances wrap the same promise and the two
    worlds are the same. *)
Definition alike (r1 r2 : option (Completion Val Ref * State Val W)) : Prop :=
  match r1, r2 with
  | Some (Normal b1, s1), Some (Normal b2, s2) =>
      is_Some (heap s1 !! b1) /\
      heap s1 !! b1 = heap s2 !! b2 /\
      world s1 = world s2
  | None, None => True
  | _, _ => False
  end.

(** The call [m] completed, if it returned at all, has returned normally:
    it has not raised. *)
Definition never_raises {A} (m : M A) : Prop :=
  forall s, m s = None \/ exists a s', m s = Some (Normal a, s').
End Pipelines.

(** ** Test fixtures *)

Module Fixtures.
(** The values of the package's tests and playground: integers, the
    quotient of two integers, [NaN], strings, [Error] objects, an error
    made from another value, and promises. *)
#[warnings="-register-all"]
Inductive JsValue : Type :=
| Num (n : Z)
| Quotient (a b : Z)
| NaN
| Str (s : string)
| Error_ (message : string)
| CustomError (cause : JsValue)
| PromiseOf (p : Promise JsValue JsValue).

(** Of these values the promises are the thenables. *)
#[global] Instance thenables_JsValue : Thenables JsValue JsValue :=
  fun value =>
    match value with
    | PromiseOf p => Thenable p
    | _ => Plain value
    end.

(** The world of the tests: the arguments a spy was called with. *)
Definition Calls : Type := list JsValue.

Definition St : Type := State JsValue Calls.

(** No instance in the store, and a spy never called. *)
Definition initial : St := mkState [] [].

(** [vi.fn()]: records its argument and returns [result]. *)
Definition mockFn {A} (result : A) : JsValue -> Eff JsValue Calls A :=
  fun arg s => Some (Normal result, mkState (heap s) (world s ++ [arg])).

(** [val * k] *)
Definition times (val : JsValue) (k : Z) : JsValue :=
  match val with Num n => Num (n * k) | _ => NaN end.

(** [val + k] on numbers *)
Definition plus (val : JsValue) (k : Z) : JsValue :=
  match val with Num n => Num (n + k) | _ => NaN end.

(** [(val) => ok(val * 2)] *)
Definition okDouble (val : JsValue) : Eff JsValue Calls (Returned JsValue) :=
  let* r := ResultAsync.ok (times val 2) in ret (ReturnedResultAsync r).

(** [(val) => ok(val + 5)] *)
Definition okPlus5 (val : JsValue) : Eff JsValue Calls (Returned JsValue) :=
  let* r := ResultAsync.ok (plus val 5) in ret (ReturnedResultAsync r).

(** [async (val) => ok(val * 2)]: the promise of the [async] function is
    resolved with the instance that [ok] returned. *)
Definition asyncDouble (val : JsValue)
    : Eff JsValue Calls (Returned JsValue) :=
  let* p := async (let* r := ResultAsync.ok (times val 2) in
                   let* q := resolve_with r in
                   ret (Thenable q)) in
  ret (ReturnedPromise p).

(** [() => ok(value)] and [() => err(error)] *)
Definition thenOk (value : JsValue) : JsValue -> Eff JsValue Calls (Returned JsValue) :=
  fun _ => let* r := ResultAsync.ok value in ret (ReturnedResultAsync r).

Definition thenErr (error : JsValue) : JsValue -> Eff JsValue Calls (Returned JsValue) :=
  fun _ => let* r := ResultAsync.err error in ret (ReturnedResultAsync r).

(** [() => Promise.resolve(42)] *)
Definition resolves42 : list JsValue -> Eff JsValue Calls (Promise JsValue JsValue) :=
  fun _ => ret (Promise_resolve (Num 42)).

(** [() => Promise.reject(new Error(message))] *)
Definition rejects (message : string)
    : list JsValue -> Eff JsValue Calls (Promise JsValue JsValue) :=
  fun _ => ret (Rejected (Error_ message)).

(** [divideNumbers] of the playground: not an [async] function; it throws
    on a zero divisor and returns [Promise.resolve(a / b)] otherwise. *)
Definition divideNumbers (args : list JsValue)
    : Eff JsValue Calls (Promise JsValue JsValue) :=
  match args with
  | [Num a; Num b] =>
      if (b =? 0)%Z then throw (Error_ "Division by zero")
      else ret (Promise_resolve (Quotient a b))
  | _ => ret (Promise_resolve NaN)
  end.

(** [(e) => new CustomError(e)] *)
Definition toCustomError (error : JsValue) : Eff JsValue Calls JsValue :=
  ret (CustomError error).

(** [() => { throw new Error("bad transformer") }] *)
Definition faulty {A} : JsValue -> Eff JsValue Calls A :=
  fun _ => throw (Error_ "bad transformer").

(** [(x) => okSync(x * 2)], spied on: a transformer of a synchronous
    chain. *)
Definition doubled (x : JsValue) : EffW JsValue Calls (Result JsValue) :=
  fun w => Some (Normal (Ok (times x 2)), w ++ [x]).

(** [(x) => x + 5], spied on. *)
Definition plus5 (x : JsValue) : EffW JsValue Calls JsValue :=
  fun w => Some (Normal (plus x 5), w ++ [x]).

(** [(x) => errSync(new CustomError(x))], spied on. *)
Definition refused (x : JsValue) : EffW JsValue Calls (Result JsValue) :=
  fun w => Some (Normal (Err (CustomError x)), w ++ [x]).

(** [(arg1) => Promise.resolve(arg1 + 5)] *)
Definition addFive (args : list JsValue)
    : Eff JsValue Calls (Promise JsValue JsValue) :=
  match args with
  | arg1 :: _ => ret (Promise_resolve (plus arg1 5))
  | [] => ret (Promise_resolve NaN)
  end.

(** The store of [const okResult = ok(10)]. *)
Definition ok10 : St := alloc (Fulfilled (Ok (Num 10))) initial.

(** The store of [const errResult = err("original error")]. *)
Definition errOriginal : St :=
  alloc (Fulfilled (Err (Str "original error"))) initial.

(** [okSync(10).andThen(doubled).map(plus5).andThen(refused).map(plus5)] *)
Definition sampleChain : list (SyncStep JsValue Calls) :=
  [SAndThen AsPromise doubled; SMap plus5;
   SAndThen AsResultAsync refused; SMap plus5].

(** [okResult.map(spy); okResult.andThen(okDouble)], then [orElse] on
    the instance [map] returned and [andTee] with a faulty function on
    [okResult] again. *)
Definition sampleCalls : list (Ref * Operator JsValue Calls) :=
  [(0, OpMap (mockFn (Num 1))); (0, OpAndThen okDouble);
   (1, OpOrElse okPlus5); (0, OpAndTee faulty)].

(** The store of an instance whose promise was rejected with
    [Error("boom")], as after a transformer that threw it. *)
Definition rejectedBoom : St := alloc (Rejected (Error_ "boom")) initial.

(** The store of an instance whose promise never settles. *)
Definition pendingForever : St := alloc Pending initial.

(** [() => new Promise(() => {})]: a promise that never settles. *)
Definition hangs : list JsValue -> Eff JsValue Calls (Promise JsValue JsValue) :=
  fun _ => ret Pending.

(** [a.map(spy).orElse(spy).andTee(spy).mapErr(spy)], with spies. *)
Definition spiedChain : list (Operator JsValue Calls) :=
  [OpMap (mockFn (Num 1)); OpOrElse (mockFn (ReturnedResult (Ok (Num 2))));
   OpAndTee (mockFn (Num 3)); OpMapErr (mockFn (Num 4))].

(** [a.map(spy).andThen(spy).andTee(spy)] *)
Definition successSteps : list (Operator JsValue Calls) :=
  [OpMap (mockFn (Num 1)); OpAndThen (mockFn (ReturnedResult (Ok (Num 2))));
   OpAndTee (mockFn (Num 3))].

(** [a.mapErr(spy).orElse(spy).orTee(spy)] *)
Definition failureSteps : list (Operator JsValue Calls) :=
  [OpMapErr (mockFn (Num 1)); OpOrElse (mockFn (ReturnedResult (Ok (Num 2))));
   OpOrTee (mockFn (Num 3))].

(** What a test sees of a run from the initial state: how it completed, and
    the calls the spy recorded. *)
Definition completion {A} (m : Eff JsValue Calls A)
    : option (Completion JsValue A) :=
  fst <$> m initial.

Definition spied {A} (m : Eff JsValue Calls A) : option Calls :=
  (fun r => world r.2) <$> m initial.
End Fixtures.

(** * Properties *)

(** ** Running the monad *)

Section Run.
Context {Val W : Type}.
Local Abbreviation M := (Eff Val W).
Local Abbreviation St := (State Val W).
Implicit Types (s : St) (this : Ref).

Lemma bind_normal {A B} (m : M A) (k : A -> M B) s a s' :
  m s = Some (Normal a, s') -> bind m k s = k a s'.
Proof. intros H. unfold bind. now rewrite H. Qed.

Lemma get_promise_Some this obj s :
  heap s !! this = Some obj ->
  get_promise this s = Some (Normal (_promise obj), s).
Proof. intros H. unfold get_promise. now rewrite H. Qed.

Lemma length_alloc p s : length (heap (alloc p s)) = S (length (heap s)).
Proof. unfold alloc; simpl. rewrite length_app; simpl. lia. Qed.

Lemma lookup_alloc_new p s :
  heap (alloc p s) !! length (heap s) = Some (mkResultAsync p).
Proof.
  unfold alloc; simpl. rewrite lookup_app_r by lia.
  now rewrite Nat.sub_diag.
Qed.
End Run.

(** [this._promise] evaluated, in a state where the receiver is known. *)
Ltac read_promise H :=
  rewrite (bind_normal _ _ _ _ _ (get_promise_Some _ _ _ H)).

(** ** The store only grows *)

Section Frame.
Context {Val W : Type} {thenables : Thenables Val Val}.
Local Abbreviation M := (Eff Val W).
Local Abbreviation St := (State Val W).
Implicit Types (s : St) (this : Ref).

Lemma extending_ret {A} (a : A) : extending (Val:=Val) (W:=W) (ret a).
Proof. intros s c s' H. inversion H; subst. reflexivity. Qed.

Lemma extending_throw {A} fault : extending (W:=W) (@throw Val W A fault).
Proof. intros s c s' H. inversion H; subst. reflexivity. Qed.

Lemma extending_bind {A B} (m : M A) (k : A -> M B) :
  extending m -> (forall a, extending (k a)) -> extending (bind m k).
Proof.
  intros Hm Hk s c s' H. unfold bind in H.
  destruct (m s) as [[[a | fault] s1] |] eqn:E; [| | discriminate].
  - etransitivity; [exact (Hm _ _ _ E) | exact (Hk _ _ _ _ H)].
  - inversion H; subst. exact (Hm _ _ _ E).
Qed.

Lemma extending_settle {A} (job : M (Resolution Val A)) :
  extending job -> extending (settle job).
Proof.
  intros Hjob s c s' H. unfold settle in H.
  destruct (job s) as [[[[a | p] | fault] s1] |] eqn:E;
    inversion H; subst; exact (Hjob _ _ _ E).
Qed.

Lemma extending_get_promise this : extending (W:=W) (@get_promise Val W this).
Proof.
  intros s c s' H. unfold get_promise in H.
  destruct (heap s !! this); inversion H; subst. reflexivity.
Qed.

Lemma extending_new_ResultAsync p :
  extending (W:=W) (@new_ResultAsync Val W p).
Proof.
  intros s c s' H. inversion H; subst. unfold alloc; simpl.
  now apply prefix_app_r.
Qed.

Lemma extending_Promise_then {A B} (p : Promise Val A)
    (cb : A -> M (Resolution Val B)) :
  extends cb -> extending (Promise_then p (Call cb) None).
Proof.
  intros Hcb. destruct p as [a | reason |]; cbn.
  - apply extending_settle, Hcb.
  - apply extending_ret.
  - apply extending_ret.
Qed.

Lemma extending_lift {A} (m : EffW Val W A) : extending (lift m).
Proof.
  intros s c s' H. unfold lift in H.
  destruct (m (world s)) as [[c' w] |]; inversion H; subst. reflexivity.
Qed.

(** Goals of the form [extending m], for [m] built from the combinators
    above and from transformers known to extend. *)
Ltac extending :=
  repeat first
    [ apply extending_ret | apply extending_throw
    | apply extending_get_promise | apply extending_new_ResultAsync
    | apply extending_lift
    | match goal with H : extends ?fn |- extending (?fn _) => apply H end
    | apply extending_bind; [| intro]
    | match goal with |- extending (match ?x with _ => _ end) => destruct x end
    | progress unfold ResultSync.map, ResultSync.mapErr, ResultSync.andTee,
        ResultSync.orTee, ResultSync.match_, ResultAsync.unwrapped ].

Lemma call_derive this (op : Operator Val W) :
  exists cb,
    call this op = derive this cb /\
    (transformer_extends op -> extends cb).
Proof.
  destruct op as [fn | fn | fn | fn | fn | fn];
    cbn [call transformer_extends];
    (eexists; split; [reflexivity |]); intros Hfn res; extending.
Qed.

(** An operator call returns normally, with a reference to an instance
    that was not in the store before, and leaves the instances that were
    as they are. *)
Lemma derive_spec this cb s c s' :
  extends cb ->
  derive this cb s = Some (c, s') ->
  exists r, c = Normal r /\
    heap s `prefix_of` heap s' /\
    length (heap s) <= r < length (heap s').
Proof.
  intros Hcb H. unfold derive in H. unfold bind at 1 in H.
  destruct (get_promise this s) as [[[p | fault] s0] |] eqn:Eget;
    [| | discriminate].
  2:{ unfold get_promise in Eget. destruct (heap s !! this); discriminate. }
  assert (s0 = s) as ->.
  { unfold get_promise in Eget. destruct (heap s !! this); now inversion Eget. }
  unfold bind in H.
  destruct (Promise_then p (Call cb) None s) as [[[q | fault] s1] |] eqn:Ethen;
    [| | discriminate].
  2:{ destruct p as [a | reason |]; cbn in Ethen;
        [| discriminate | discriminate].
      unfold settle in Ethen.
      destruct (cb a s) as [[[[x | p'] | ?] ?] |]; discriminate. }
  pose proof (extending_Promise_then p cb Hcb _ _ _ Ethen) as Hpre.
  inversion H; subst. exists (length (heap s1)). split; [reflexivity |].
  rewrite length_alloc. pose proof (prefix_length _ _ Hpre).
  split; [| lia].
  etransitivity; [exact Hpre |]. unfold alloc; simpl. now apply prefix_app_r.
Qed.

Lemma call_spec this (op : Operator Val W) s c s' :
  transformer_extends op ->
  call this op s = Some (c, s') ->
  exists r, c = Normal r /\
    heap s `prefix_of` heap s' /\
    length (heap s) <= r < length (heap s').
Proof.
  intros Hop H. destruct (call_derive this op) as (cb & Heq & Hcb).
  rewrite Heq in H. eapply derive_spec; eauto.
Qed.

Lemma calls_spec (script : list (Ref * Operator Val W)) s c s' :
  Forall (fun c => transformer_extends c.2) script ->
  calls script s = Some (c, s') ->
  exists rs, c = Normal rs /\
    length rs = length script /\
    heap s `prefix_of` heap s' /\
    Forall (fun r => length (heap s) <= r < length (heap s')) rs /\
    NoDup rs.
Proof.
  intros Hall. revert s c s'.
  induction Hall as [| [this op] rest Hop _ IH]; intros s c s' H.
  - inversion H; subst. exists []. repeat split; auto using NoDup_nil_2.
  - cbn [calls] in H. unfold bind at 1 in H.
    destruct (call this op s) as [[c1 s1] |] eqn:E1; [| discriminate].
    destruct (call_spec _ _ _ _ _ Hop E1) as (r & -> & Hpre1 & Hr).
    unfold bind in H.
    destruct (calls rest s1) as [[c2 s2] |] eqn:E2; [| discriminate].
    destruct (IH _ _ _ E2) as (rs & -> & Hlen & Hpre2 & Hrs & Hnd).
    inversion H; subst. exists (r :: rs).
    pose proof (prefix_length _ _ Hpre1). pose proof (prefix_length _ _ Hpre2).
    repeat split.
    + simpl. now rewrite Hlen.
    + etransitivity; eassumption.
    + constructor; [lia |].
      eapply Forall_impl; [exact Hrs |]. simpl. intros; lia.
    + constructor; [| exact Hnd].
      intros Hin. rewrite Forall_forall in Hrs.
      specialize (Hrs _ Hin). simpl in Hrs. lia.
Qed.

(** An operator called on an instance of the store, with a transformer
    that does not loop, returns. *)
Lemma call_returns this (op : Operator Val W) s :
  this < length (heap s) ->
  transformer_returns op ->
  exists r s', call this op s = Some (Normal r, s').
Proof.
  intros Hthis Hret.
  destruct (lookup_lt_is_Some_2 _ _ Hthis) as [[p] Hobj].
  destruct op as [fn | fn | fn | fn | fn | fn];
    cbn [call transformer_returns] in *;
    unfold ResultAsync.map, ResultAsync.mapErr, ResultAsync.andThen,
      ResultAsync.orElse, ResultAsync.andTee, ResultAsync.orTee;
    read_promise Hobj; cbn [_promise];
    destruct p as [[x | x] | reason |]; cbn;
    try (do 2 eexists; reflexivity);
    unfold settle, bind.
  1-2, 5-6:
    destruct (Hret x s) as ([y | fault] & s1 & ->); cbn;
    do 2 eexists; reflexivity.
  all: destruct (Hret x s) as ([[r | q | res] | fault] & s1 & -> & Hr); cbn;
    try (do 2 eexists; reflexivity);
    destruct (lookup_lt_is_Some_2 _ _ (Hr r eq_refl)) as [obj Hobj'];
    read_promise Hobj'; do 2 eexists; reflexivity.
Qed.

Lemma calls_return (script : list (Ref * Operator Val W)) s :
  Forall (fun c => transformer_returns c.2) script ->
  on_instances script s ->
  exists rs s', calls script s = Some (Normal rs, s').
Proof.
  intros Hret. revert s.
  induction Hret as [| [this op] rest Hop _ IH]; intros s Hin.
  - now exists [], s.
  - destruct Hin as [Hthis Hrest]. cbn [fst snd] in *. cbn [calls].
    destruct (call_returns this op s Hthis Hop) as (r & s1 & Hcall).
    rewrite (bind_normal _ _ _ _ _ Hcall).
    destruct (IH s1 (Hrest r s1 Hcall)) as (rs & s' & Hcalls).
    rewrite (bind_normal _ _ _ _ _ Hcalls).
    now exists (r :: rs), s'.
Qed.

(** The consumers read the store at the receiver only. *)
Lemma consumers_agree this obj s s' :
  heap s !! this = Some obj ->
  heap s' !! this = Some obj ->
  fst <$> ResultAsync.then_ this Absent None s'
    = fst <$> ResultAsync.then_ this Absent None s /\
  fst <$> ResultAsync.match_ this (fun x => ret (Ok x)) (fun x => ret (Err x)) s'
    = fst <$> ResultAsync.match_ this
                (fun x => ret (Ok x)) (fun x => ret (Err x)) s /\
  fst <$> ResultAsync.unwrap this s' = fst <$> ResultAsync.unwrap this s /\
  (forall value,
      fst <$> ResultAsync.unwrapOr this value s'
      = fst <$> ResultAsync.unwrapOr this value s) /\
  fst <$> ResultAsync.isOk this s' = fst <$> ResultAsync.isOk this s /\
  fst <$> ResultAsync.isErr this s' = fst <$> ResultAsync.isErr this s.
Proof.
  intros H H'.
  repeat apply conj; intros;
    unfold ResultAsync.then_, ResultAsync.match_, ResultAsync.unwrap,
      ResultAsync.unwrapOr, ResultAsync.isOk, ResultAsync.isErr, async, settle;
    rewrite (bind_normal _ _ _ _ _ (get_promise_Some _ _ _ H)),
      (bind_normal _ _ _ _ _ (get_promise_Some _ _ _ H'));
    destruct obj as [[[x | x] | reason |]]; cbn; unfold settle, bind, ret;
    try (destruct (resolution _)); reflexivity.
Qed.
End Frame.

(** ** Synchronous chains, step by step through the operators *)

Section Lifting.
Context {Val W : Type}.
Local Abbreviation M := (Eff Val W).
Local Abbreviation St := (State Val W).
Implicit Types (s : St) (a b : Ref).

Lemma lift_run {A} (m : EffW Val W A) s :
  lift m s = match m (world s) with
             | Some (c, w) => Some (c, mkState (heap s) w)
             | None => None
             end.
Proof. reflexivity. Qed.

Lemma get_promise_new p (h : list (ResultAsyncObj Val)) (w : W) :
  get_promise (length h) (alloc p (mkState h w))
  = Some (Normal p, alloc p (mkState h w)).
Proof.
  apply (get_promise_Some _ (mkResultAsync p)).
  unfold alloc; cbn [heap]. now apply list_lookup_middle.
Qed.

(** One step: the operator settles the new promise the way the
    synchronous method completes, and changes the world the same way. *)
Lemma step_simulation (step : SyncStep Val W) res a s s0 c s1 :
  heap s !! a = Some (mkResultAsync (Fulfilled res)) ->
  world s0 = world s ->
  sync_step res step s0 = Some (c, s1) ->
  exists b s',
    call a (async_step step) s = Some (Normal b, s') /\
    world s' = world s1 /\
    heap s' !! b = Some (mkResultAsync (settled c)).
Proof.
  intros Ha Hw Hsync.
  destruct step as [fn | fn | shape fn | shape fn | fn | fn];
    cbn [call async_step sync_step] in *;
    unfold ResultAsync.map, ResultAsync.mapErr, ResultAsync.andThen,
      ResultAsync.orElse, ResultAsync.andTee, ResultAsync.orTee;
    read_promise Ha;
    cbn [_promise Promise_then];
    destruct res as [x | x];
    cbn [ResultSync.map ResultSync.mapErr ResultSync.andThen
           ResultSync.orElse ResultSync.andTee ResultSync.orTee
           ResultSync.match_] in *;
    try destruct shape; cbn [shaped] in *;
    unfold settle, async, settle, bind, ResultAsync.toAsync, new_ResultAsync,
      ResultAsync.unwrapped, bind, ret, Promise_resolve,
      ResultSync.okSync, ResultSync.errSync in *;
    rewrite ?lift_run in *; rewrite <- ?Hw;
    try (destruct (fn x (world s0)) as [[[r | fault] w] |]; cbn in *);
    try discriminate;
    inversion Hsync; subst; clear Hsync; cbn [settled world];
    rewrite ?get_promise_new;
    (do 2 eexists; split; [reflexivity |];
     split; [cbn [world alloc]; congruence |];
     unfold alloc; cbn [heap]; now apply list_lookup_middle).
Qed.

(** A rejected promise goes through the operators as it is: no
    transformer runs. *)
Lemma async_chain_rejected (steps : list (SyncStep Val W)) a s fault :
  heap s !! a = Some (mkResultAsync (Rejected fault)) ->
  exists b s',
    async_chain steps a s = Some (Normal b, s') /\
    world s' = world s /\
    heap s' !! b = Some (mkResultAsync (Rejected fault)).
Proof.
  revert a s. induction steps as [| step rest IH]; intros a s Ha.
  - exists a, s. now repeat split.
  - cbn [async_chain].
    assert (Hcall : call a (async_step step) s
                    = Some (Normal (length (heap s)), alloc (Rejected fault) s)).
    { destruct step; cbn [call async_step];
        unfold ResultAsync.map, ResultAsync.mapErr, ResultAsync.andThen,
          ResultAsync.orElse, ResultAsync.andTee, ResultAsync.orTee;
        now read_promise Ha. }
    rewrite (bind_normal _ _ _ _ _ Hcall).
    destruct (IH _ _ (lookup_alloc_new (Rejected fault) s))
      as (b & s' & Hrun & Hw & Hb).
    exists b, s'. now repeat split.
Qed.

(** The whole chain, by induction on its steps. *)
Lemma chain_simulation (steps : list (SyncStep Val W)) res a s s0 c s1 :
  heap s !! a = Some (mkResultAsync (Fulfilled res)) ->
  world s0 = world s ->
  sync_chain steps res s0 = Some (c, s1) ->
  exists b s',
    async_chain steps a s = Some (Normal b, s') /\
    world s' = world s1 /\
    heap s' !! b = Some (mkResultAsync (settled c)).
Proof.
  revert res a s s0.
  induction steps as [| step rest IH]; intros res a s s0 Ha Hw Hsync.
  - inversion Hsync; subst. exists a, s. now repeat split.
  - cbn [sync_chain async_chain] in *. unfold bind in Hsync.
    destruct (sync_step res step s0) as [[[r | fault] sm] |] eqn:Estep;
      [| | discriminate].
    + destruct (step_simulation _ _ _ _ _ _ _ Ha Hw Estep)
        as (b1 & s1' & Hcall & Hw1 & Hb1).
      rewrite (bind_normal _ _ _ _ _ Hcall).
      exact (IH _ _ _ _ Hb1 (eq_sym Hw1) Hsync).
    + inversion Hsync; subst.
      destruct (step_simulation _ _ _ _ _ _ _ Ha Hw Estep)
        as (b1 & s1' & Hcall & Hw1 & Hb1).
      rewrite (bind_normal _ _ _ _ _ Hcall).
      destruct (async_chain_rejected rest _ _ _ Hb1)
        as (b & s' & Hrun & Hw' & Hb).
      exists b, s'. repeat split; [assumption | congruence | assumption].
Qed.

Lemma await_settled a c s :
  heap s !! a = Some (mkResultAsync (settled c)) ->
  await_ a s = Some (c, s).
Proof.
  intros Ha. unfold await_, resolve_with, ResultAsync.then_.
  unfold bind at 1.
  read_promise Ha.
  now destruct c.
Qed.
End Lifting.

Section Properties.
Context {Val W : Type} {thenables : Thenables Val Val}.
Local Abbreviation M := (Eff Val W).
Local Abbreviation St := (State Val W).
Implicit Types (s : St) (v e f : Val) (this : Ref).

(** C3: short-circuiting is decided by the receiver's variant alone.
    [andThen] on a receiver resolved to [Err e] returns a new instance
    whose promise is fulfilled with [Err e], and [orElse] on a receiver
    resolved to [Ok v] one fulfilled with [Ok v]; so do
    [err(e).andThen(f)] and [ok(v).orElse(g)].  The transformer is never
    invoked: the call completes, with this result and with the state as
    it was but for the new instance, for every [f] and [g], also one that
    never returns or that changes the world on each call. *)
Theorem short_circuit_by_receiver_variant :
  (forall this e (f : Val -> M (Returned Val)) s,
      heap s !! this = Some (mkResultAsync (Fulfilled (Err e))) ->
      ResultAsync.andThen this f s
      = Some (Normal (length (heap s)), alloc (Fulfilled (Err e)) s)) /\
  (forall this v (g : Val -> M (Returned Val)) s,
      heap s !! this = Some (mkResultAsync (Fulfilled (Ok v))) ->
      ResultAsync.orElse this g s
      = Some (Normal (length (heap s)), alloc (Fulfilled (Ok v)) s)) /\
  (forall e (f : Val -> M (Returned Val)) s,
      (let* r := ResultAsync.err e in ResultAsync.andThen r f) s
      = Some (Normal (S (length (heap s))),
              alloc (Fulfilled (Err e)) (alloc (Fulfilled (Err e)) s))) /\
  (forall v (g : Val -> M (Returned Val)) s,
      (let* r := ResultAsync.ok v in ResultAsync.orElse r g) s
      = Some (Normal (S (length (heap s))),
              alloc (Fulfilled (Ok v)) (alloc (Fulfilled (Ok v)) s))).
Proof.
  assert (Hand : forall this e (f : Val -> M (Returned Val)) s,
             heap s !! this = Some (mkResultAsync (Fulfilled (Err e))) ->
             ResultAsync.andThen this f s
             = Some (Normal (length (heap s)), alloc (Fulfilled (Err e)) s)).
  { intros this e f s Hthis. unfold ResultAsync.andThen.
    now read_promise Hthis. }
  assert (Hor : forall this v (g : Val -> M (Returned Val)) s,
             heap s !! this = Some (mkResultAsync (Fulfilled (Ok v))) ->
             ResultAsync.orElse this g s
             = Some (Normal (length (heap s)), alloc (Fulfilled (Ok v)) s)).
  { intros this v g s Hthis. unfold ResultAsync.orElse.
    now read_promise Hthis. }
  repeat apply conj; [exact Hand | exact Hor | |].
  - intros e f s. unfold bind at 1. cbn [ResultAsync.err new_ResultAsync].
    etransitivity; [exact (Hand _ e f _ (lookup_alloc_new _ s)) |].
    now rewrite length_alloc.
  - intros v g s. unfold bind at 1. cbn [ResultAsync.ok new_ResultAsync].
    etransitivity; [exact (Hor _ v g _ (lookup_alloc_new _ s)) |].
    now rewrite length_alloc.
Qed.

(** The reaction of [andThen] on a success: [fn] runs, and what it
    returns settles the new promise. *)
Lemma andThen_on_Ok this v (fn : Val -> M (Returned Val)) s newValue s1 q :
  heap s !! this = Some (mkResultAsync (Fulfilled (Ok v))) ->
  fn v s = Some (Normal newValue, s1) ->
  eventual newValue s1 = Some q ->
  ResultAsync.andThen this fn s = Some (Normal (length (heap s1)), alloc q s1).
Proof.
  intros Hthis Hfn Hq.
  unfold ResultAsync.andThen.
  read_promise Hthis.
  cbn [_promise Promise_then ResultSync.match_].
  assert (Hjob : settle (let* nv := fn v in ResultAsync.unwrapped nv) s
                 = Some (Normal q, s1)).
  { unfold settle, bind. rewrite Hfn.
    destruct newValue as [r | p | res]; cbn in Hq |- *.
    - destruct (heap s1 !! r) as [obj |] eqn:Hr; [| discriminate].
      inversion Hq; subst. unfold bind.
      now rewrite (get_promise_Some _ _ _ Hr).
    - now inversion Hq.
    - now inversion Hq. }
  now rewrite (bind_normal _ _ _ _ _ Hjob).
Qed.

(** C2: [andThen] on a receiver resolved to [Ok v] invokes [fn v] (the
    state the call ends in is the one [fn v] returned in, plus the new
    instance) and the new instance wraps exactly the promise that the
    value of [fn v] stands for, whichever of the three shapes it has: the
    [_promise] of a returned [ResultAsync], a returned promise, or a plain
    [Result] fulfilled.  Nothing is nested: it is a promise of a
    [Result].  So after [andThen(() => err(e'))] the failure payload is
    [e'], and [ok(10).andThen(okDouble).andThen(okPlus5)] resolves to 20
    and then 25. *)
Theorem andThen_chains_what_fn_produces :
  (forall this v (fn : Val -> M (Returned Val)) s newValue s1 q,
      heap s !! this = Some (mkResultAsync (Fulfilled (Ok v))) ->
      fn v s = Some (Normal newValue, s1) ->
      eventual newValue s1 = Some q ->
      ResultAsync.andThen this fn s
      = Some (Normal (length (heap s1)), alloc q s1)) /\
  (forall this v e' s,
      heap s !! this = Some (mkResultAsync (Fulfilled (Ok v))) ->
      ResultAsync.andThen this
        (fun _ => let* r := ResultAsync.err e' in
                  ret (ReturnedResultAsync r)) s
      = Some (Normal (S (length (heap s))),
              alloc (Fulfilled (Err e')) (alloc (Fulfilled (Err e')) s))) /\
  (let* a := ResultAsync.ok (Fixtures.Num 10) in
   let* b := ResultAsync.andThen a Fixtures.okDouble in
   let* c := ResultAsync.andThen b Fixtures.okPlus5 in
   let* x := ResultAsync.unwrap b in
   let* y := ResultAsync.unwrap c in
   ret (x, y)) Fixtures.initial
  = Some (Normal (Fulfilled (Fixtures.Num 20), Fulfilled (Fixtures.Num 25)),
          mkState
            (List.map mkResultAsync
               [Fulfilled (Ok (Fixtures.Num 10));
                Fulfilled (Ok (Fixtures.Num 20));
                Fulfilled (Ok (Fixtures.Num 20));
                Fulfilled (Ok (Fixtures.Num 25));
                Fulfilled (Ok (Fixtures.Num 25))])
            []).
Proof.
  split; [| split].
  - intros. eapply andThen_on_Ok; eassumption.
  - intros this v e' s Hthis.
    erewrite andThen_on_Ok; [| eassumption | reflexivity |].
    + now rewrite length_alloc.
    + cbn [eventual]. now rewrite lookup_alloc_new.
  - reflexivity.
Qed.

(** C1, where the code departs from it: a fault raised while [op] is
    being invoked, before it has returned a promise, is not caught.
    [safeArgs.try(...args)] is evaluated before [.then] and [.catch] are
    reached, so the adapted callable raises that fault itself, with or
    without a translator, and no [ResultAsync] is made.  The playground's
    [safeDivideNumbers(10, 0)] is such a call. *)
Theorem safeTry_lets_synchronous_fault_escape :
  (forall fault (translate : option (Val -> M Val)) (args : list Val) s,
      ResultAsync.safeTry (mkSafeArgs (fun _ => throw fault) translate) args s
      = Some (Throw fault, s)) /\
  ResultAsync.safeTry
    (mkSafeArgs Fixtures.divideNumbers (Some Fixtures.toCustomError))
    [Fixtures.Num 10; Fixtures.Num 0] Fixtures.initial
  = Some (Throw (Fixtures.Error_ "Division by zero"), Fixtures.initial).
Proof. split; reflexivity. Qed.

(** C4: the adapted callable of [safeTry].  When [op] returns a promise
    fulfilled with [x] the new instance resolves to [Ok x]; when the
    promise is rejected with [f] and a translator is given, to
    [Err (translate f)]; when it is rejected with [f] and no translator
    is given, to [Err f]. *)
Theorem safeTry_wraps_completion_and_rejection :
  (forall (safeArgs : SafeArgs Val W) args s x s1,
      try_ safeArgs args s = Some (Normal (Fulfilled x), s1) ->
      ResultAsync.safeTry safeArgs args s
      = Some (Normal (length (heap s1)), alloc (Fulfilled (Ok x)) s1)) /\
  (forall (safeArgs : SafeArgs Val W) args s f s1 translate e' s2,
      try_ safeArgs args s = Some (Normal (Rejected f), s1) ->
      catch_ safeArgs = Some translate ->
      translate f s1 = Some (Normal e', s2) ->
      ResultAsync.safeTry safeArgs args s
      = Some (Normal (length (heap s2)), alloc (Fulfilled (Err e')) s2)) /\
  (forall (safeArgs : SafeArgs Val W) args s f s1,
      try_ safeArgs args s = Some (Normal (Rejected f), s1) ->
      catch_ safeArgs = None ->
      ResultAsync.safeTry safeArgs args s
      = Some (Normal (length (heap s1)), alloc (Fulfilled (Err f)) s1)).
Proof.
  repeat split.
  - intros safeArgs args s x s1 Htry.
    unfold ResultAsync.safeTry.
    now rewrite (bind_normal _ _ _ _ _ Htry).
  - intros safeArgs args s f s1 translate e' s2 Htry Hcatch Htr.
    unfold ResultAsync.safeTry.
    rewrite (bind_normal _ _ _ _ _ Htry), Hcatch.
    cbn. unfold settle, bind. now rewrite Htr.
  - intros safeArgs args s f s1 Htry Hcatch.
    unfold ResultAsync.safeTry.
    now rewrite (bind_normal _ _ _ _ _ Htry), Hcatch.
Qed.

(** C5, as the code has it: [unwrap] on the asynchronous wrapper.  For a
    success payload [v] that is not a thenable, [ok(v).unwrap()] returns a
    promise fulfilled with [v]; a payload that is a thenable is adopted,
    and the promise follows it.  [err(e).unwrap()] returns normally, with
    a promise rejected with the failure payload [e].  In general, where
    the synchronous [unwrap] raises a fault on the result the receiver
    resolved to, the asynchronous one returns normally a promise rejected
    with that fault.  On an instance of the store the asynchronous
    [unwrap] always returns, normally, and leaves the state as it was; on
    no receiver does it raise. *)
Theorem unwrap_rejects_where_sync_raises :
  (forall v s,
      resolution v = Plain v ->
      (let* a := ResultAsync.ok v in ResultAsync.unwrap a) s
      = Some (Normal (Fulfilled v), alloc (Fulfilled (Ok v)) s)) /\
  (forall v p s,
      resolution v = Thenable p ->
      (let* a := ResultAsync.ok v in ResultAsync.unwrap a) s
      = Some (Normal p, alloc (Fulfilled (Ok v)) s)) /\
  (forall e s,
      (let* a := ResultAsync.err e in ResultAsync.unwrap a) s
      = Some (Normal (Rejected e), alloc (Fulfilled (Err e)) s)) /\
  (forall this res fault s s1,
      heap s !! this = Some (mkResultAsync (Fulfilled res)) ->
      ResultSync.unwrap res s = Some (Throw fault, s1) ->
      ResultAsync.unwrap this s = Some (Normal (Rejected fault), s1)) /\
  (forall this s,
      this < length (heap s) ->
      exists p, ResultAsync.unwrap this s = Some (Normal p, s)) /\
  (forall this s,
      ResultAsync.unwrap this s = None \/
      exists p s', ResultAsync.unwrap this s = Some (Normal p, s')).
Proof.
  repeat apply conj.
  - intros v s Hv. unfold bind at 1. cbn [ResultAsync.ok new_ResultAsync].
    unfold ResultAsync.unwrap, async, settle.
    read_promise (lookup_alloc_new (Promise_resolve (ResultSync.okSync v)) s).
    cbn. unfold settle, bind, ret. now rewrite Hv.
  - intros v p s Hv. unfold bind at 1. cbn [ResultAsync.ok new_ResultAsync].
    unfold ResultAsync.unwrap, async, settle.
    read_promise (lookup_alloc_new (Promise_resolve (ResultSync.okSync v)) s).
    cbn. unfold settle, bind, ret. now rewrite Hv.
  - intros e s. unfold bind at 1. cbn [ResultAsync.err new_ResultAsync].
    unfold ResultAsync.unwrap, async, settle.
    now read_promise
          (lookup_alloc_new (Promise_resolve (ResultSync.errSync e)) s).
  - intros this res fault s s1 Hthis Hsync.
    unfold ResultAsync.unwrap, async, settle.
    read_promise Hthis. cbn. unfold settle, bind. now rewrite Hsync.
  - intros this s Hthis.
    destruct (lookup_lt_is_Some_2 _ _ Hthis) as [[q] Hq].
    unfold ResultAsync.unwrap, async, settle.
    read_promise Hq.
    destruct q as [[v | e] | fault |]; cbn; unfold settle, bind, ret;
      try (destruct (resolution _)); eauto.
  - intros this s. unfold ResultAsync.unwrap, async, settle.
    destruct (bind _ _ s) as [[[[x | p] | ?] ?] |]; eauto.
Qed.

(** C5 as it is worded, for every payload, fails on a payload that is a
    thenable: [ok(Promise.reject(new Error("boom"))).unwrap()] returns a
    promise that is rejected with the error, not fulfilled with the
    payload. *)
Lemma unwrap_of_thenable_payload_counterexample :
  (let* a := ResultAsync.ok
               (Fixtures.PromiseOf (Rejected (Fixtures.Error_ "boom"))) in
   ResultAsync.unwrap a) Fixtures.initial
  = Some (Normal (Rejected (Fixtures.Error_ "boom")),
          alloc (Fulfilled
                   (Ok (Fixtures.PromiseOf (Rejected (Fixtures.Error_ "boom")))))
            Fixtures.initial) /\
  ~ (forall (v : Fixtures.JsValue) (s : Fixtures.St),
        exists s' : Fixtures.St,
          (let* a := ResultAsync.ok v in ResultAsync.unwrap a) s
          = Some (Normal (Fulfilled v), s')).
Proof.
  split; [reflexivity |].
  intros Hall.
  destruct (Hall (Fixtures.PromiseOf (Rejected (Fixtures.Error_ "boom")))
              Fixtures.initial) as [s' Hrun].
  discriminate Hrun.
Qed.

(** C6: a fault of the transformer is not turned into a failure.  When
    [fn] runs (the receiver resolved to [Ok v] for [map] and [andThen], to
    [Err e] for [orElse]) and raises [f], the promise of the new instance
    is rejected with [f]: it is not fulfilled with an [Err]. *)
Theorem transformer_fault_rejects_derived_promise :
  (forall this v (fn : Val -> M Val) s f s1,
      heap s !! this = Some (mkResultAsync (Fulfilled (Ok v))) ->
      fn v s = Some (Throw f, s1) ->
      ResultAsync.map this fn s
      = Some (Normal (length (heap s1)), alloc (Rejected f) s1)) /\
  (forall this v (fn : Val -> M (Returned Val)) s f s1,
      heap s !! this = Some (mkResultAsync (Fulfilled (Ok v))) ->
      fn v s = Some (Throw f, s1) ->
      ResultAsync.andThen this fn s
      = Some (Normal (length (heap s1)), alloc (Rejected f) s1)) /\
  (forall this e (fn : Val -> M (Returned Val)) s f s1,
      heap s !! this = Some (mkResultAsync (Fulfilled (Err e))) ->
      fn e s = Some (Throw f, s1) ->
      ResultAsync.orElse this fn s
      = Some (Normal (length (heap s1)), alloc (Rejected f) s1)).
Proof.
  repeat split; intros this x fn s f s1 Hthis Hfn.
  - unfold ResultAsync.map.
    read_promise Hthis.
    cbn. unfold settle, bind. now rewrite Hfn.
  - unfold ResultAsync.andThen.
    read_promise Hthis.
    cbn. unfold settle, bind. now rewrite Hfn.
  - unfold ResultAsync.orElse.
    read_promise Hthis.
    cbn. unfold settle, bind. now rewrite Hfn.
Qed.

(** C9: [infer] has no behaviour of its own.  It returns the function it
    is given, so calling [infer(fn)] on any arguments is calling [fn] on
    them. *)
Theorem infer_returns_fn_itself :
  forall (TArgs TResult : Type) (fn : TArgs -> TResult),
    ResultAsync.infer fn = fn /\
    forall args, ResultAsync.infer fn args = fn args.
Proof. intros TArgs TResult fn. split; reflexivity. Qed.

(** C10: a [ResultAsync] is awaitable, and what it settles to is the
    [Result], not the success payload.  [a.then(okFn, errFn)] is
    [then] of the wrapped promise with the same two callbacks; awaiting
    [ok(v)] resumes with [Ok v], and awaiting [err(e)] resumes with
    [Err e] as a value: nothing is thrown on the failure variant. *)
Theorem then_delegates_and_await_yields_result :
  (forall (B : Type) a obj (okFn : Handler Val W (Result Val) B) errFn s,
      heap s !! a = Some obj ->
      ResultAsync.then_ a okFn errFn s
      = Promise_then (_promise obj) okFn errFn s) /\
  (forall v s,
      (let* a := ResultAsync.ok v in await_ a) s
      = Some (Normal (Ok v), alloc (Fulfilled (Ok v)) s)) /\
  (forall e s,
      (let* a := ResultAsync.err e in await_ a) s
      = Some (Normal (Err e), alloc (Fulfilled (Err e)) s)).
Proof.
  repeat split.
  - intros B a obj okFn errFn s Ha. unfold ResultAsync.then_.
    now read_promise Ha.
  - intros v s. unfold bind at 1. cbn [ResultAsync.ok new_ResultAsync].
    unfold await_, resolve_with, ResultAsync.then_.
    unfold bind at 1.
    rewrite (bind_normal _ _ _ _ _
               (get_promise_Some _ _ _ (lookup_alloc_new _ s))).
    reflexivity.
  - intros e s. unfold bind at 1. cbn [ResultAsync.err new_ResultAsync].
    unfold await_, resolve_with, ResultAsync.then_.
    unfold bind at 1.
    rewrite (bind_normal _ _ _ _ _
               (get_promise_Some _ _ _ (lookup_alloc_new _ s))).
    reflexivity.
Qed.

(** C8: the operators never mutate the receiver.  Any sequence of calls
    of [map], [mapErr], [andThen], [orElse], [andTee] and [orTee], each on
    an instance that is in the store when the call is made and with a
    transformer that does not loop, returns: each call returns an instance.
    And after any sequence of calls, on any instances and with transformers
    that themselves leave the instances of the store alone,
    every call has returned a reference to a new instance, distinct from
    every instance there before and from the instances the other calls
    returned; and every instance there before still wraps the promise it
    wrapped, so that [then], [match], [unwrap], [unwrapOr], [isOk] and
    [isErr] on it yield what they yielded before the calls. *)
Theorem operators_leave_receiver_as_it_was :
  (forall (script : list (Ref * Operator Val W)) s,
      Forall (fun c => transformer_returns c.2) script ->
      on_instances script s ->
      exists rs s', calls script s = Some (Normal rs, s')) /\
  (forall (script : list (Ref * Operator Val W)) s c s',
      Forall (fun c => transformer_extends c.2) script ->
      calls script s = Some (c, s') ->
      exists rs, c = Normal rs /\
        length rs = length script /\
        Forall (fun r => length (heap s) <= r < length (heap s')) rs /\
        NoDup rs /\
        forall this obj,
          heap s !! this = Some obj ->
          (this ∉ rs) /\
          heap s' !! this = Some obj /\
          fst <$> ResultAsync.then_ this Absent None s'
            = fst <$> ResultAsync.then_ this Absent None s /\
          fst <$> ResultAsync.match_ this
                    (fun x => ret (Ok x)) (fun x => ret (Err x)) s'
            = fst <$> ResultAsync.match_ this
                        (fun x => ret (Ok x)) (fun x => ret (Err x)) s /\
          fst <$> ResultAsync.unwrap this s'
            = fst <$> ResultAsync.unwrap this s /\
          (forall value,
              fst <$> ResultAsync.unwrapOr this value s'
              = fst <$> ResultAsync.unwrapOr this value s) /\
          fst <$> ResultAsync.isOk this s' = fst <$> ResultAsync.isOk this s /\
          fst <$> ResultAsync.isErr this s' = fst <$> ResultAsync.isErr this s).
Proof.
  split; [exact calls_return |].
  intros script s c s' Hall Hrun.
  destruct (calls_spec _ _ _ _ Hall Hrun) as (rs & -> & Hlen & Hpre & Hrs & Hnd).
  exists rs. repeat apply conj; try assumption; try reflexivity.
  intros this obj Hthis.
  assert (Hthis' : heap s' !! this = Some obj)
    by (eapply prefix_lookup_Some; eassumption).
  split; [| split; [exact Hthis' |]].
  - intros Hin. rewrite Forall_forall in Hrs. specialize (Hrs _ Hin).
    apply lookup_lt_Some in Hthis. simpl in Hrs. lia.
  - now apply consumers_agree with (obj := obj).
Qed.

(** C7: lifting is faithful.  [toAsync(res)] is a new instance whose
    promise is fulfilled with [res], and awaiting it gives [res].  For
    every synchronous chain of [map], [mapErr], [andThen], [orElse],
    [andTee] and [orTee] steps on [res] that completes, taking each step
    through the operator of the same name on [toAsync(res)] (a
    transformer of [andThen] or [orElse] in any of the three shapes) and
    awaiting at the end completes the same way, with the same result or
    the same fault, and leaves the same world.  As an instance,
    [toAsync(okSync(10)).andThen(x => ok(x * 2)).unwrap()] resolves to
    20. *)
Theorem lifting_is_faithful :
  (forall res s,
      ResultAsync.toAsync res s
      = Some (Normal (length (heap s)), alloc (Fulfilled res) s) /\
      (let* a := ResultAsync.toAsync res in await_ a) s
      = Some (Normal res, alloc (Fulfilled res) s)) /\
  (forall (steps : list (SyncStep Val W)) res s c s1,
      sync_chain steps res s = Some (c, s1) ->
      exists h,
        (let* a := ResultAsync.toAsync res in
         let* b := async_chain steps a in
         await_ b) s
        = Some (c, mkState h (world s1))) /\
  (let* a := ResultAsync.toAsync (ResultSync.okSync (Fixtures.Num 10)) in
   let* b := ResultAsync.andThen a Fixtures.okDouble in
   ResultAsync.unwrap b) Fixtures.initial
  = Some (Normal (Fulfilled (Fixtures.Num 20)),
          mkState
            (List.map mkResultAsync
               [Fulfilled (Ok (Fixtures.Num 10));
                Fulfilled (Ok (Fixtures.Num 20));
                Fulfilled (Ok (Fixtures.Num 20))])
            []).
Proof.
  split; [| split].
  - intros res s. split; [reflexivity |].
    unfold bind at 1. cbn [ResultAsync.toAsync new_ResultAsync].
    exact (await_settled _ (Normal res) _ (lookup_alloc_new _ s)).
  - intros steps res s c s1 Hsync.
    unfold bind at 1. cbn [ResultAsync.toAsync new_ResultAsync].
    destruct (chain_simulation steps res (length (heap s))
                (alloc (Fulfilled res) s) s c s1
                (lookup_alloc_new _ s) eq_refl Hsync)
      as (b & s' & Hrun & Hw & Hb).
    rewrite (bind_normal _ _ _ _ _ Hrun), (await_settled _ _ _ Hb).
    exists (heap s'). rewrite <- Hw. now destruct s'.
  - reflexivity.
Qed.
End Properties.

(** ** The package's tests, run on the embedding *)

Section Tests.
Import Fixtures.

(** andThen: "should transform success values with callback function" *)
Example test_andThen_transforms :
  completion (let* okResult := ResultAsync.ok (Num 10) in
              let* r := ResultAsync.andThen okResult okDouble in
              ResultAsync.unwrap r)
  = Some (Normal (Fulfilled (Num 20))).
Proof. reflexivity. Qed.

(** andThen: "should propagate errors from the original result" *)
Example test_andThen_propagates_original_error :
  let run := let* errResult := ResultAsync.err (Str "original error") in
             let* result := ResultAsync.andThen errResult
                              (mockFn (ReturnedResult (Ok (Num 0)))) in
             ResultAsync.unwrap result in
  completion run = Some (Normal (Rejected (Str "original error"))) /\
  spied run = Some [].
Proof. split; reflexivity. Qed.

(** andThen: "should propagate errors from the callback function" *)
Example test_andThen_propagates_callback_error :
  completion (let* okResult := ResultAsync.ok (Num 10) in
              let* result := ResultAsync.andThen okResult
                               (thenErr (Str "new error")) in
              ResultAsync.unwrap result)
  = Some (Normal (Rejected (Str "new error"))).
Proof. reflexivity. Qed.

(** andThen: "should work with async callbacks" *)
Example test_andThen_async_callback :
  completion (let* okResult := ResultAsync.ok (Num 10) in
              let* r := ResultAsync.andThen okResult asyncDouble in
              ResultAsync.unwrap r)
  = Some (Normal (Fulfilled (Num 20))).
Proof. reflexivity. Qed.

(** orElse: "should return the original result if it's successful" *)
Example test_orElse_keeps_success :
  let run := let* okResult := ResultAsync.ok (Str "success") in
             let* r := ResultAsync.orElse okResult
                         (mockFn (ReturnedResult (Ok (Num 0)))) in
             ResultAsync.unwrap r in
  completion run = Some (Normal (Fulfilled (Str "success"))) /\
  spied run = Some [].
Proof. split; reflexivity. Qed.

(** orElse: "should support chaining multiple orElse calls" *)
Example test_orElse_chain :
  completion (let* errResult := ResultAsync.err (Str "first error") in
              let* r1 := ResultAsync.orElse errResult
                           (thenErr (Str "second error")) in
              let* r2 := ResultAsync.orElse r1
                           (thenOk (Str "finally recovered")) in
              ResultAsync.unwrap r2)
  = Some (Normal (Fulfilled (Str "finally recovered"))).
Proof. reflexivity. Qed.

(** orElse: "should propagate the new error if callback returns an error" *)
Example test_orElse_new_error :
  completion (let* errResult := ResultAsync.err (Str "original error") in
              let* result := ResultAsync.orElse errResult
                               (thenErr (Str "new error")) in
              ResultAsync.unwrap result)
  = Some (Normal (Rejected (Str "new error"))).
Proof. reflexivity. Qed.

(** safeTry: "should return Ok result with function success" *)
Example test_safeTry_success :
  completion (let* result := ResultAsync.safeTry (mkSafeArgs resolves42 None) [] in
              ResultAsync.unwrap result)
  = Some (Normal (Fulfilled (Num 42))).
Proof. reflexivity. Qed.

(** safeTry: "should return Err result when function throws" *)
Example test_safeTry_rejection :
  completion (let* result := ResultAsync.safeTry
                               (mkSafeArgs (rejects "Something went wrong") None)
                               [] in
              ResultAsync.unwrap result)
  = Some (Normal (Rejected (Error_ "Something went wrong"))).
Proof. reflexivity. Qed.

(** safeTry: "should modify the error if `fnErr` is provided" *)
Example test_safeTry_translated :
  completion (let* result := ResultAsync.safeTry
                               (mkSafeArgs (rejects "Original error")
                                  (Some (fun _ => ret (Error_ "Custom error message"))))
                               [] in
              ResultAsync.unwrap result)
  = Some (Normal (Rejected (Error_ "Custom error message"))).
Proof. reflexivity. Qed.

(** safeTry: "should handle arguments" *)
Example test_safeTry_arguments :
  completion (let* result := ResultAsync.safeTry (mkSafeArgs addFive None)
                               [Num 10] in
              ResultAsync.unwrap result)
  = Some (Normal (Fulfilled (Num 15))).
Proof. reflexivity. Qed.

(** The playground's [safeDivideNumbers(10, 2)]. *)
Example playground_safeDivideNumbers :
  completion (let* r := ResultAsync.safeTry
                          (mkSafeArgs divideNumbers (Some toCustomError))
                          [Num 10; Num 2] in
              await_ r)
  = Some (Normal (Ok (Quotient 10 2))).
Proof. reflexivity. Qed.
End Tests.

(** ** The properties on the fixtures *)

Section Witnesses.
Import Fixtures.
Local Abbreviation M := (Eff JsValue Calls).

Lemma andThen_chains_what_fn_produces_witness :
  (heap ok10 !! 0 = Some (mkResultAsync (Fulfilled (Ok (Num 10)))) /\
   okDouble (Num 10) ok10
   = Some (Normal (ReturnedResultAsync 1),
           alloc (Fulfilled (Ok (Num 20))) ok10) /\
   eventual (ReturnedResultAsync 1) (alloc (Fulfilled (Ok (Num 20))) ok10)
   = Some (Fulfilled (Ok (Num 20))) /\
   ResultAsync.andThen 0 okDouble ok10
   = Some (Normal 2,
           alloc (Fulfilled (Ok (Num 20)))
             (alloc (Fulfilled (Ok (Num 20))) ok10))) /\
  ResultAsync.andThen 0 asyncDouble ok10
  = Some (Normal 2,
          alloc (Fulfilled (Ok (Num 20)))
            (alloc (Fulfilled (Ok (Num 20))) ok10)) /\
  ResultAsync.andThen 0 (mockFn (ReturnedResult (Ok (Num 20)))) ok10
  = Some (Normal 1,
          alloc (Fulfilled (Ok (Num 20)))
            (mkState (heap ok10) [Num 10])) /\
  ResultAsync.andThen 0
    (fun _ => let* r := ResultAsync.err (Str "new error") in
              ret (ReturnedResultAsync r)) ok10
  = Some (Normal 2,
          alloc (Fulfilled (Err (Str "new error")))
            (alloc (Fulfilled (Err (Str "new error"))) ok10)).
Proof.
  pose proof (@andThen_chains_what_fn_produces JsValue Calls)
    as (Hgen & Herr & _).
  split; [repeat (split; [reflexivity |]) | split; [| split]].
  - exact (Hgen 0 (Num 10) okDouble ok10 _ _ _ eq_refl eq_refl eq_refl).
  - exact (Hgen 0 (Num 10) asyncDouble ok10 _ _ _ eq_refl eq_refl eq_refl).
  - exact (Hgen 0 (Num 10) (mockFn (ReturnedResult (Ok (Num 20)))) ok10
             _ _ _ eq_refl eq_refl eq_refl).
  - exact (Herr 0 (Num 10) (Str "new error") ok10 eq_refl).
Defined.

Lemma short_circuit_by_receiver_variant_witness :
  (heap errOriginal !! 0
   = Some (mkResultAsync (Fulfilled (Err (Str "original error")))) /\
   ResultAsync.andThen 0 (mockFn (ReturnedResult (Ok (Num 0)))) errOriginal
   = Some (Normal 1,
           alloc (Fulfilled (Err (Str "original error"))) errOriginal)) /\
  (heap ok10 !! 0 = Some (mkResultAsync (Fulfilled (Ok (Num 10)))) /\
   ResultAsync.orElse 0 (mockFn (ReturnedResult (Ok (Num 0)))) ok10
   = Some (Normal 1, alloc (Fulfilled (Ok (Num 10))) ok10)).
Proof.
  pose proof (@short_circuit_by_receiver_variant JsValue Calls)
    as (Hand & Hor & _).
  split; (split; [reflexivity |]).
  - exact (Hand 0 (Str "original error") _ errOriginal eq_refl).
  - exact (Hor 0 (Num 10) _ ok10 eq_refl).
Defined.

Lemma safeTry_wraps_completion_and_rejection_witness :
  ResultAsync.safeTry (mkSafeArgs resolves42 None) [] initial
  = Some (Normal 0, alloc (Fulfilled (Ok (Num 42))) initial) /\
  ResultAsync.safeTry
    (mkSafeArgs (rejects "Original error") (Some toCustomError)) [] initial
  = Some (Normal 0,
          alloc (Fulfilled (Err (CustomError (Error_ "Original error"))))
            initial) /\
  ResultAsync.safeTry (mkSafeArgs (rejects "boom") None) [] initial
  = Some (Normal 0, alloc (Fulfilled (Err (Error_ "boom"))) initial).
Proof.
  pose proof (@safeTry_wraps_completion_and_rejection JsValue Calls)
    as (Hok & Htr & Hraw).
  split; [| split].
  - exact (Hok (mkSafeArgs resolves42 None) [] initial (Num 42) initial eq_refl).
  - exact (Htr (mkSafeArgs (rejects "Original error") (Some toCustomError))
             [] initial (Error_ "Original error") initial toCustomError
             (CustomError (Error_ "Original error")) initial
             eq_refl eq_refl eq_refl).
  - exact (Hraw (mkSafeArgs (rejects "boom") None) [] initial (Error_ "boom")
             initial eq_refl eq_refl).
Defined.

Lemma unwrap_rejects_where_sync_raises_witness :
  (resolution (Num 10) = Plain (Num 10) /\
   (let* a := ResultAsync.ok (Num 10) in ResultAsync.unwrap a) initial
   = Some (Normal (Fulfilled (Num 10)), ok10)) /\
  (resolution (PromiseOf (Rejected (Error_ "boom")))
   = Thenable (Rejected (Error_ "boom")) /\
   (let* a := ResultAsync.ok (PromiseOf (Rejected (Error_ "boom"))) in
    ResultAsync.unwrap a) initial
   = Some (Normal (Rejected (Error_ "boom")),
           alloc (Fulfilled (Ok (PromiseOf (Rejected (Error_ "boom")))))
             initial)) /\
  (heap errOriginal !! 0
   = Some (mkResultAsync (Fulfilled (Err (Str "original error")))) /\
   ResultSync.unwrap (Err (Str "original error")) errOriginal
   = Some (Throw (Str "original error"), errOriginal) /\
   ResultAsync.unwrap 0 errOriginal
   = Some (Normal (Rejected (Str "original error")), errOriginal)) /\
  (0 < length (heap pendingForever) /\
   exists p, ResultAsync.unwrap 0 pendingForever
             = Some (Normal p, pendingForever)).
Proof.
  pose proof (@unwrap_rejects_where_sync_raises JsValue Calls
                thenables_JsValue)
    as (Hplain & Hthenable & _ & Hfault & Hreturns & _).
  split; [split; [reflexivity |] | split; [split; [reflexivity |] | split]].
  - exact (Hplain (Num 10) initial eq_refl).
  - exact (Hthenable (PromiseOf (Rejected (Error_ "boom")))
             (Rejected (Error_ "boom")) initial eq_refl).
  - split; [reflexivity |]. split; [reflexivity |].
    exact (Hfault 0 (Err (Str "original error")) (Str "original error")
             errOriginal errOriginal eq_refl eq_refl).
  - split; [exact (Nat.lt_0_succ 0) |].
    exact (Hreturns 0 pendingForever (Nat.lt_0_succ 0)).
Defined.

Lemma transformer_fault_rejects_derived_promise_witness :
  ResultAsync.map 0 faulty ok10
  = Some (Normal 1, alloc (Rejected (Error_ "bad transformer")) ok10) /\
  ResultAsync.andThen 0 faulty ok10
  = Some (Normal 1, alloc (Rejected (Error_ "bad transformer")) ok10) /\
  ResultAsync.orElse 0 faulty errOriginal
  = Some (Normal 1, alloc (Rejected (Error_ "bad transformer")) errOriginal).
Proof.
  pose proof (@transformer_fault_rejects_derived_promise JsValue Calls)
    as (Hmap & Hand & Hor).
  split; [| split].
  - exact (Hmap 0 (Num 10) faulty ok10 _ ok10 eq_refl eq_refl).
  - exact (Hand 0 (Num 10) faulty ok10 _ ok10 eq_refl eq_refl).
  - exact (Hor 0 (Str "original error") faulty errOriginal _ errOriginal
             eq_refl eq_refl).
Defined.

Lemma lifting_is_faithful_witness :
  sync_chain sampleChain (Ok (Num 10)) initial
  = Some (Normal (Err (CustomError (Num 25))),
          mkState [] [Num 10; Num 20; Num 25]) /\
  exists h,
    (let* a := ResultAsync.toAsync (Ok (Num 10)) in
     let* b := async_chain sampleChain a in
     await_ b) initial
    = Some (Normal (Err (CustomError (Num 25))),
            mkState h [Num 10; Num 20; Num 25]).
Proof.
  split; [reflexivity |].
  exact (proj1 (proj2 (@lifting_is_faithful JsValue Calls))
           sampleChain (Ok (Num 10)) initial _ _ eq_refl).
Defined.

Lemma then_delegates_and_await_yields_result_witness :
  heap ok10 !! 0 = Some (mkResultAsync (Fulfilled (Ok (Num 10)))) /\
  ResultAsync.then_ 0
    (Call (fun res => ret (Plain (ResultSync.isOk res)))) None ok10
  = Promise_then (Fulfilled (Ok (Num 10)))
      (Call (fun res => ret (Plain (ResultSync.isOk res)))) None ok10.
Proof.
  split; [reflexivity |].
  exact (proj1 (@then_delegates_and_await_yields_result JsValue Calls)
           bool 0 _ (Call (fun res => ret (Plain (ResultSync.isOk res))))
           None ok10 eq_refl).
Defined.

Lemma mockFn_extends {A} (result : A) : extends (mockFn result).
Proof. intros a s c s' H. inversion H; subst. reflexivity. Qed.

Lemma okDouble_extends : extends okDouble.
Proof.
  intros a. apply extending_bind; [apply extending_new_ResultAsync |].
  intros; apply extending_ret.
Qed.

Lemma okPlus5_extends : extends okPlus5.
Proof.
  intros a. apply extending_bind; [apply extending_new_ResultAsync |].
  intros; apply extending_ret.
Qed.

Lemma faulty_extends {A} : extends (@faulty A).
Proof. intros a. apply extending_throw. Qed.

Lemma mockFn_returns {A} (result : A) : returns (mockFn result).
Proof. intros a s. now eexists _, _. Qed.

Lemma faulty_returns {A} : returns (@faulty A).
Proof. intros a s. now eexists _, _. Qed.

Lemma okDouble_returns_instance : returns_instance okDouble.
Proof.
  intros a s. eexists _, _. split; [reflexivity |].
  intros r Hr. inversion Hr; subst. rewrite length_alloc. lia.
Qed.

Lemma okPlus5_returns_instance : returns_instance okPlus5.
Proof.
  intros a s. eexists _, _. split; [reflexivity |].
  intros r Hr. inversion Hr; subst. rewrite length_alloc. lia.
Qed.

Lemma operators_leave_receiver_as_it_was_witness :
  (Forall (fun c => transformer_returns c.2) sampleCalls /\
   on_instances sampleCalls ok10 /\
   exists rs after, calls sampleCalls ok10 = Some (Normal rs, after)) /\
  (Forall (fun c => transformer_extends c.2) sampleCalls /\
   exists after,
     calls sampleCalls ok10 = Some (Normal [1; 3; 4; 5], after) /\
     (0 ∉ [1; 3; 4; 5]) /\
     heap after !! 0 = Some (mkResultAsync (Fulfilled (Ok (Num 10)))) /\
     fst <$> ResultAsync.unwrap 0 after = fst <$> ResultAsync.unwrap 0 ok10).
Proof.
  pose proof (@operators_leave_receiver_as_it_was JsValue Calls _)
    as (Hreturn & Hkeep).
  assert (Hret : Forall (fun c => transformer_returns c.2) sampleCalls).
  { repeat constructor; cbn.
    - apply mockFn_returns.
    - apply okDouble_returns_instance.
    - apply okPlus5_returns_instance.
    - apply faulty_returns. }
  assert (Hin : on_instances sampleCalls ok10).
  { repeat (split;
            [cbn; lia
            | intros r s1 Hcall; vm_compute in Hcall;
              injection Hcall as <- <-]).
    exact I. }
  assert (Hall : Forall (fun c => transformer_extends c.2) sampleCalls).
  { repeat constructor; cbn.
    - apply mockFn_extends.
    - apply okDouble_extends.
    - apply okPlus5_extends.
    - apply faulty_extends. }
  split.
  - repeat (split; [assumption |]).
    exact (Hreturn sampleCalls ok10 Hret Hin).
  - split; [exact Hall |].
    eexists. split; [reflexivity |].
    destruct (Hkeep sampleCalls ok10 _ _ Hall eq_refl)
      as (rs & Heq & _ & _ & _ & Hrecv).
    inversion Heq; subst rs.
    destruct (Hrecv 0 _ eq_refl) as (Hnew & Hsame & _ & _ & Hunwrap & _).
    repeat split; assumption.
Defined.
End Witnesses.


(** * Further properties of the class *)

(** ** Receivers whose transformer is skipped *)

Section Skipping.
Context {Val W : Type}.
Local Abbreviation M := (Eff Val W).
Local Abbreviation St := (State Val W).
Implicit Types (s : St) (a b this : Ref) (p : Promise Val (Result Val)).

Lemma call_skips (op : Operator Val W) a p s :
  heap s !! a = Some (mkResultAsync p) ->
  skips op p = true ->
  call a op s = Some (Normal (length (heap s)), alloc p s).
Proof.
  intros Ha Hskip.
  destruct op as [fn | fn | fn | fn | fn | fn]; cbn [call];
    unfold ResultAsync.map, ResultAsync.mapErr, ResultAsync.andThen,
      ResultAsync.orElse, ResultAsync.andTee, ResultAsync.orTee;
    read_promise Ha;
    destruct p as [[v | e] | reason |]; cbn in Hskip; try discriminate;
    reflexivity.
Qed.

Lemma lookup_allocs_old n p s this obj :
  heap s !! this = Some obj -> heap (allocs n p s) !! this = Some obj.
Proof.
  revert s. induction n as [| n IH]; intros s H; [exact H |].
  cbn [allocs]. apply IH. unfold alloc; cbn [heap].
  now apply lookup_app_l_Some.
Qed.

Lemma world_allocs n p s : world (allocs n p s) = world s.
Proof.
  revert s. induction n as [| n IH]; intros s; [reflexivity |].
  cbn [allocs]. now rewrite IH.
Qed.

Lemma length_allocs n p s : length (heap (allocs n p s)) = length (heap s) + n.
Proof.
  revert s. induction n as [| n IH]; intros s; cbn [allocs]; [lia |].
  rewrite IH, length_alloc. lia.
Qed.

(** A chain all of whose operators skip their transformer only adds
    instances that wrap the receiver's promise. *)
Lemma chain_skips (ops : list (Operator Val W)) a p s :
  heap s !! a = Some (mkResultAsync p) ->
  forallb (fun op => skips op p) ops = true ->
  exists b,
    chain ops a s = Some (Normal b, allocs (length ops) p s) /\
    heap (allocs (length ops) p s) !! b = Some (mkResultAsync p).
Proof.
  revert a s. induction ops as [| op rest IH]; intros a s Ha Hall.
  - exists a. split; [reflexivity | exact Ha].
  - cbn [forallb] in Hall. apply andb_prop in Hall as [Hop Hrest].
    cbn [chain length allocs].
    rewrite (bind_normal _ _ _ _ _ (call_skips op a p s Ha Hop)).
    exact (IH _ _ (lookup_alloc_new p s) Hrest).
Qed.

(** X1: a receiver whose promise is rejected, or never settles, goes
    through any chain of the six operators as it is.  Every instance of the
    chain wraps the same rejection (or stays pending), no transformer is
    invoked, whatever it is, and the world is as it was: [orElse],
    [mapErr] and [orTee] handle failures, not rejections. *)
Theorem unfulfilled_receiver_passes_through_chain :
  forall (ops : list (Operator Val W)) a p s,
    heap s !! a = Some (mkResultAsync p) ->
    (forall res, p <> Fulfilled res) ->
    exists b,
      chain ops a s = Some (Normal b, allocs (length ops) p s) /\
      heap (allocs (length ops) p s) !! b = Some (mkResultAsync p) /\
      world (allocs (length ops) p s) = world s.
Proof.
  intros ops a p s Ha Hp.
  destruct (chain_skips ops a p s Ha) as (b & Hrun & Hb).
  - apply forallb_forall. intros op _.
    destruct p as [res | reason |]; [now destruct (Hp res) | reflexivity ..].
  - exists b. repeat split; [assumption | assumption | apply world_allocs].
Qed.

(** X2: a failure skips every success-side step, and a success every
    failure-side step.  A chain of [map], [andThen] and [andTee] calls on a
    receiver resolved to [Err e] ends in an instance resolved to [Err e],
    and a chain of [mapErr], [orElse] and [orTee] calls on a receiver
    resolved to [Ok v] in one resolved to [Ok v]; in both no transformer is
    invoked and the world is as it was, however long the chain. *)
Theorem chain_skips_steps_of_other_variant :
  (forall (ops : list (Operator Val W)) a e s,
      heap s !! a = Some (mkResultAsync (Fulfilled (Err e))) ->
      forallb on_success ops = true ->
      exists b,
        chain ops a s
        = Some (Normal b, allocs (length ops) (Fulfilled (Err e)) s) /\
        heap (allocs (length ops) (Fulfilled (Err e)) s) !! b
        = Some (mkResultAsync (Fulfilled (Err e))) /\
        world (allocs (length ops) (Fulfilled (Err e)) s) = world s) /\
  (forall (ops : list (Operator Val W)) a v s,
      heap s !! a = Some (mkResultAsync (Fulfilled (Ok v))) ->
      forallb (fun op => negb (on_success op)) ops = true ->
      exists b,
        chain ops a s
        = Some (Normal b, allocs (length ops) (Fulfilled (Ok v)) s) /\
        heap (allocs (length ops) (Fulfilled (Ok v)) s) !! b
        = Some (mkResultAsync (Fulfilled (Ok v))) /\
        world (allocs (length ops) (Fulfilled (Ok v)) s) = world s).
Proof.
  split; intros ops a x s Ha Hall.
  - destruct (chain_skips ops a _ s Ha Hall) as (b & Hrun & Hb).
    exists b. repeat split; [assumption | assumption | apply world_allocs].
  - destruct (chain_skips ops a _ s Ha Hall) as (b & Hrun & Hb).
    exists b. repeat split; [assumption | assumption | apply world_allocs].
Qed.
End Skipping.

(** ** The consumers *)

Section Consumers.
Context {Val W : Type} {thenables : Thenables Val Val}.
Local Abbreviation M := (Eff Val W).
Local Abbreviation St := (State Val W).
Implicit Types (s : St) (a b this : Ref) (p : Promise Val (Result Val)).

Lemma never_raises_ret {A} (x : A) : never_raises (Val:=Val) (W:=W) (ret x).
Proof. intros s. right. now exists x, s. Qed.

Lemma never_raises_bind {A B} (m : M A) (k : A -> M B) :
  never_raises m -> (forall x, never_raises (k x)) -> never_raises (bind m k).
Proof.
  intros Hm Hk s. unfold bind.
  destruct (Hm s) as [-> | (x & s' & ->)]; [now left | apply Hk].
Qed.

Lemma never_raises_settle {A} (job : M (Resolution Val A)) :
  never_raises (settle job).
Proof.
  intros s. unfold settle.
  destruct (job s) as [[[[x | q] | fault] s'] |]; eauto.
Qed.

Lemma never_raises_get_promise this :
  @never_raises Val W _ (get_promise this).
Proof. intros s. unfold get_promise. destruct (heap s !! this); eauto. Qed.

Lemma never_raises_Promise_then {A B} (q : Promise Val A)
    (onFulfilled : Handler Val W A B) onRejected :
  never_raises (Promise_then q onFulfilled onRejected).
Proof.
  destruct q as [x | reason |]; cbn.
  - destruct onFulfilled; [apply never_raises_ret | apply never_raises_settle].
  - destruct onRejected; [apply never_raises_settle | apply never_raises_ret].
  - apply never_raises_ret.
Qed.

Lemma never_raises_new_ResultAsync p :
  @never_raises Val W _ (new_ResultAsync p).
Proof. intros s. right. now eexists _, _. Qed.

Lemma never_raises_derive this
    (cb : Result Val -> M (Resolution Val (Result Val))) :
  never_raises (derive this cb).
Proof.
  apply never_raises_bind; [apply never_raises_get_promise |]. intros q.
  apply never_raises_bind; [apply never_raises_Promise_then |]. intros q'.
  apply never_raises_new_ResultAsync.
Qed.

(** X3: the methods of the class never raise.  Whatever the receiver and
    whatever the transformer or callback does, also when it throws, a call
    of one of the six operators, of [then] or of one of the five [async]
    consumers returns normally if it returns: a fault can only come out as
    the rejection of a promise. *)
Theorem methods_never_raise :
  (forall this (op : Operator Val W), never_raises (call this op)) /\
  (forall B this (okFn : Handler Val W (Result Val) B) errFn,
      never_raises (ResultAsync.then_ this okFn errFn)) /\
  (forall this, @never_raises Val W _ (ResultAsync.isOk this)) /\
  (forall this, @never_raises Val W _ (ResultAsync.isErr this)) /\
  (forall this, @never_raises Val W _ (ResultAsync.unwrap this)) /\
  (forall this value,
      @never_raises Val W _ (ResultAsync.unwrapOr this value)) /\
  (forall T (thenablesT : Thenables Val T) this (ok err : Val -> M T),
      never_raises (ResultAsync.match_ this ok err)).
Proof.
  repeat apply conj.
  - intros this op. destruct (call_derive this op) as (cb & -> & _).
    apply never_raises_derive.
  - intros B this okFn errFn. unfold ResultAsync.then_.
    apply never_raises_bind; [apply never_raises_get_promise |].
    intros q. apply never_raises_Promise_then.
  - intros this. apply never_raises_settle.
  - intros this. apply never_raises_settle.
  - intros this. apply never_raises_settle.
  - intros this value. apply never_raises_settle.
  - intros T thenablesT this ok err. apply never_raises_settle.
Qed.

(** X4: the consumers do not handle a rejection.  On a receiver whose
    promise is rejected with [reason] (a transformer raised up the chain),
    [isOk], [isErr], [unwrap], [unwrapOr] and [match] each return a promise
    rejected with [reason]: [unwrapOr] does not fall back to its value and
    [match] runs neither callback.  On a receiver that never settles they
    return promises that never settle. *)
Theorem consumers_pass_rejection_through :
  (forall this reason s,
      heap s !! this = Some (mkResultAsync (Rejected reason)) ->
      ResultAsync.isOk this s = Some (Normal (Rejected reason), s) /\
      ResultAsync.isErr this s = Some (Normal (Rejected reason), s) /\
      ResultAsync.unwrap this s = Some (Normal (Rejected reason), s) /\
      (forall value,
          ResultAsync.unwrapOr this value s
          = Some (Normal (Rejected reason), s)) /\
      (forall T (thenablesT : Thenables Val T) (ok err : Val -> M T),
          ResultAsync.match_ this ok err s
          = Some (Normal (Rejected reason), s))) /\
  (forall this s,
      heap s !! this = Some (mkResultAsync Pending) ->
      ResultAsync.isOk this s = Some (Normal Pending, s) /\
      ResultAsync.isErr this s = Some (Normal Pending, s) /\
      ResultAsync.unwrap this s = Some (Normal Pending, s) /\
      (forall value,
          ResultAsync.unwrapOr this value s = Some (Normal Pending, s)) /\
      (forall T (thenablesT : Thenables Val T) (ok err : Val -> M T),
          ResultAsync.match_ this ok err s = Some (Normal Pending, s))).
Proof.
  split; intros; repeat apply conj; intros;
    unfold ResultAsync.isOk, ResultAsync.isErr, ResultAsync.unwrap,
      ResultAsync.unwrapOr, ResultAsync.match_, async, settle;
    match goal with H : heap _ !! _ = Some _ |- _ => read_promise H end;
    reflexivity.
Qed.

(** X5: [isErr] is the negation of [isOk].  On every receiver the two
    calls return alike, and the promise of [isErr] settles as the promise
    of [isOk] does, with the opposite boolean.  On [ok(v)] they resolve to
    [true] and [false], on [err(e)] to [false] and [true]. *)
Theorem isErr_negates_isOk :
  (forall this s,
      (ResultAsync.isOk this s = None /\ ResultAsync.isErr this s = None) \/
      exists q,
        ResultAsync.isOk this s = Some (Normal q, s) /\
        ResultAsync.isErr this s = Some (Normal (promise_map negb q), s)) /\
  (forall v s,
      (let* a := ResultAsync.ok v in ResultAsync.isOk a) s
      = Some (Normal (Fulfilled true), alloc (Fulfilled (Ok v)) s) /\
      (let* a := ResultAsync.ok v in ResultAsync.isErr a) s
      = Some (Normal (Fulfilled false), alloc (Fulfilled (Ok v)) s)) /\
  (forall e s,
      (let* a := ResultAsync.err e in ResultAsync.isOk a) s
      = Some (Normal (Fulfilled false), alloc (Fulfilled (Err e)) s) /\
      (let* a := ResultAsync.err e in ResultAsync.isErr a) s
      = Some (Normal (Fulfilled true), alloc (Fulfilled (Err e)) s)).
Proof.
  repeat apply conj.
  - intros this s.
    unfold ResultAsync.isOk, ResultAsync.isErr, async, settle, bind, get_promise.
    destruct (heap s !! this) as [[[[v | e] | reason |]] |]; cbn;
      [right | right | right | right | left; now split];
      eexists; split; reflexivity.
  - intros v s. split; unfold bind at 1; cbn [ResultAsync.ok new_ResultAsync];
      unfold ResultAsync.isOk, ResultAsync.isErr, async, settle;
      now read_promise
            (lookup_alloc_new (Promise_resolve (ResultSync.okSync v)) s).
  - intros e s. split; unfold bind at 1; cbn [ResultAsync.err new_ResultAsync];
      unfold ResultAsync.isOk, ResultAsync.isErr, async, settle;
      now read_promise
            (lookup_alloc_new (Promise_resolve (ResultSync.errSync e)) s).
Qed.

(** X6: [unwrap] and [unwrapOr] are [match] with fixed callbacks.  On
    every receiver and in every state, [unwrap()] does what
    [match({ ok: x => x, err: e => { throw e } })] does, and
    [unwrapOr(value)] what [match({ ok: x => x, err: () => value })]
    does. *)
Theorem unwrap_and_unwrapOr_are_matches :
  forall this s,
    ResultAsync.unwrap this s
    = ResultAsync.match_ this (fun x => ret x) (fun e => throw e) s /\
    forall value,
      ResultAsync.unwrapOr this value s
      = ResultAsync.match_ this (fun x => ret x) (fun _ => ret value) s.
Proof.
  intros this s. split; [| intros value];
    unfold ResultAsync.unwrap, ResultAsync.unwrapOr, ResultAsync.match_,
      async, settle, bind, get_promise;
    destruct (heap s !! this) as [[[[v | e] | reason |]] |]; reflexivity.
Qed.

(** X7: [match] runs the callback of the receiver's variant, once, and
    its promise is resolved with what the callback does.  On a receiver
    resolved to [Ok v] the promise is resolved with what [ok(v)] returns
    (fulfilled with a plain value, following a promise that an [async]
    callback returned) or rejected with what [ok(v)] throws, and the state
    is the one [ok(v)] left; [err] is not invoked.  Dually on a receiver
    resolved to [Err e]. *)
Theorem match_runs_callback_of_variant :
  (forall T (thenablesT : Thenables Val T) this v (ok err : Val -> M T) s,
      heap s !! this = Some (mkResultAsync (Fulfilled (Ok v))) ->
      ResultAsync.match_ this ok err s
      = match ok v s with
        | Some (Normal x, s1) => Some (Normal (resolved (resolution x)), s1)
        | Some (Throw fault, s1) => Some (Normal (Rejected fault), s1)
        | None => None
        end) /\
  (forall T (thenablesT : Thenables Val T) this e (ok err : Val -> M T) s,
      heap s !! this = Some (mkResultAsync (Fulfilled (Err e))) ->
      ResultAsync.match_ this ok err s
      = match err e s with
        | Some (Normal x, s1) => Some (Normal (resolved (resolution x)), s1)
        | Some (Throw fault, s1) => Some (Normal (Rejected fault), s1)
        | None => None
        end).
Proof.
  split; intros T thenablesT this x ok err s Hthis;
    unfold ResultAsync.match_, async, settle; read_promise Hthis;
    cbn; unfold settle, bind, ret.
  - destruct (ok x s) as [[[y | fault] s1] |]; [| reflexivity ..].
    now destruct (resolution y).
  - destruct (err x s) as [[[y | fault] s1] |]; [| reflexivity ..].
    now destruct (resolution y).
Qed.

(** X8: on a lifted result the consumers agree with the synchronous ones.
    For every [res], the promises of [toAsync(res).isOk()] and
    [.isErr()] are fulfilled with what [res.isOk()] and [res.isErr()]
    return.  The promise of [.unwrapOr(value)] is resolved with what
    [res.unwrapOr(value)] returns, and the promises of [.unwrap()] and
    [.match(args)] with what [res.unwrap()] and [res.match(args)] return:
    fulfilled with it when it is a plain value, following it when it is a
    thenable; they are rejected with the fault when the synchronous call
    throws. *)
Theorem consumers_agree_with_sync_on_lifted_result :
  forall res s,
    (let* a := ResultAsync.toAsync res in ResultAsync.isOk a) s
    = Some (Normal (Fulfilled (ResultSync.isOk res)), alloc (Fulfilled res) s) /\
    (let* a := ResultAsync.toAsync res in ResultAsync.isErr a) s
    = Some (Normal (Fulfilled (ResultSync.isErr res)), alloc (Fulfilled res) s) /\
    (forall value,
        (let* a := ResultAsync.toAsync res in ResultAsync.unwrapOr a value) s
        = Some (Normal (resolved (resolution (ResultSync.unwrapOr res value))),
                alloc (Fulfilled res) s)) /\
    (let* a := ResultAsync.toAsync res in ResultAsync.unwrap a) s
    = match ResultSync.unwrap res (alloc (Fulfilled res) s) with
      | Some (Normal x, s1) => Some (Normal (resolved (resolution x)), s1)
      | Some (Throw fault, s1) => Some (Normal (Rejected fault), s1)
      | None => None
      end /\
    (forall T (thenablesT : Thenables Val T) (ok err : Val -> M T),
        (let* a := ResultAsync.toAsync res in ResultAsync.match_ a ok err) s
        = match ResultSync.match_ res ok err (alloc (Fulfilled res) s) with
          | Some (Normal x, s1) => Some (Normal (resolved (resolution x)), s1)
          | Some (Throw fault, s1) => Some (Normal (Rejected fault), s1)
          | None => None
          end).
Proof.
  intros res s. repeat apply conj; intros;
    unfold bind at 1; cbn [ResultAsync.toAsync new_ResultAsync];
    unfold ResultAsync.isOk, ResultAsync.isErr, ResultAsync.unwrapOr,
      ResultAsync.unwrap, ResultAsync.match_, async, settle;
    read_promise (lookup_alloc_new (Promise_resolve res) s);
    cbn; unfold settle, bind, ret; try reflexivity.
  - now destruct (resolution (ResultSync.unwrapOr res value)).
  - destruct res as [v | e]; cbn; [| reflexivity].
    now destruct (resolution v).
  - destruct (ResultSync.match_ res ok err _) as [[[x | fault] s1] |];
      [| reflexivity ..].
    now destruct (resolution x).
Qed.
End Consumers.

(** ** The operators *)

Section Operators.
Context {Val W : Type}.
Local Abbreviation M := (Eff Val W).
Local Abbreviation St := (State Val W).
Implicit Types (s : St) (a b this : Ref) (p : Promise Val (Result Val)).

(** The reaction of [orElse] on a failure: [fn] runs, and what it
    returns settles the new promise. *)
Lemma orElse_on_Err this e (fn : Val -> M (Returned Val)) s errValue s1 q :
  heap s !! this = Some (mkResultAsync (Fulfilled (Err e))) ->
  fn e s = Some (Normal errValue, s1) ->
  eventual errValue s1 = Some q ->
  ResultAsync.orElse this fn s = Some (Normal (length (heap s1)), alloc q s1).
Proof.
  intros Hthis Hfn Hq.
  unfold ResultAsync.orElse. read_promise Hthis.
  cbn [_promise Promise_then ResultSync.match_].
  assert (Hjob : settle (let* nv := fn e in ResultAsync.unwrapped nv) s
                 = Some (Normal q, s1)).
  { unfold settle, bind. rewrite Hfn.
    destruct errValue as [r | p | res]; cbn in Hq |- *.
    - destruct (heap s1 !! r) as [obj |] eqn:Hr; [| discriminate].
      inversion Hq; subst. unfold bind.
      now rewrite (get_promise_Some _ _ _ Hr).
    - now inversion Hq.
    - now inversion Hq. }
  now rewrite (bind_normal _ _ _ _ _ Hjob).
Qed.

(** X9: [orElse] on a failure chains what the transformer produces.  On a
    receiver resolved to [Err e], [fn(e)] is invoked and the new instance
    wraps the promise its value stands for, in each of the three shapes.
    So [orElse(() => ok(x))] recovers to [Ok x] and
    [orElse(() => err(e'))] replaces the failure by [Err e']. *)
Theorem orElse_chains_what_fn_produces :
  (forall this e (fn : Val -> M (Returned Val)) s errValue s1 q,
      heap s !! this = Some (mkResultAsync (Fulfilled (Err e))) ->
      fn e s = Some (Normal errValue, s1) ->
      eventual errValue s1 = Some q ->
      ResultAsync.orElse this fn s
      = Some (Normal (length (heap s1)), alloc q s1)) /\
  (forall this e x s,
      heap s !! this = Some (mkResultAsync (Fulfilled (Err e))) ->
      ResultAsync.orElse this
        (fun _ => let* r := ResultAsync.ok x in ret (ReturnedResultAsync r)) s
      = Some (Normal (S (length (heap s))),
              alloc (Fulfilled (Ok x)) (alloc (Fulfilled (Ok x)) s))) /\
  (forall this e e' s,
      heap s !! this = Some (mkResultAsync (Fulfilled (Err e))) ->
      ResultAsync.orElse this
        (fun _ => let* r := ResultAsync.err e' in ret (ReturnedResultAsync r)) s
      = Some (Normal (S (length (heap s))),
              alloc (Fulfilled (Err e')) (alloc (Fulfilled (Err e')) s))).
Proof.
  split; [| split].
  - intros. eapply orElse_on_Err; eassumption.
  - intros this e x s Hthis.
    erewrite orElse_on_Err; [| eassumption | reflexivity |].
    + now rewrite length_alloc.
    + cbn [eventual]. now rewrite lookup_alloc_new.
  - intros this e e' s Hthis.
    erewrite orElse_on_Err; [| eassumption | reflexivity |].
    + now rewrite length_alloc.
    + cbn [eventual]. now rewrite lookup_alloc_new.
Qed.

(** X10: in [a.andThen(f).orElse(g)] the handler [g] also gets the failure
    that [f] produced.  When [a] resolved to [Ok v] and [f(v)] returned an
    instance resolved to [Err e], [g(e)] is invoked, after [f], and the
    chain resolves to what [g(e)] produces. *)
Theorem orElse_after_andThen_handles_failure_of_fn :
  forall this v e (f g : Val -> M (Returned Val)) s r s1 errValue s2 q,
    heap s !! this = Some (mkResultAsync (Fulfilled (Ok v))) ->
    f v s = Some (Normal (ReturnedResultAsync r), s1) ->
    heap s1 !! r = Some (mkResultAsync (Fulfilled (Err e))) ->
    g e (alloc (Fulfilled (Err e)) s1) = Some (Normal errValue, s2) ->
    eventual errValue s2 = Some q ->
    chain [OpAndThen f; OpOrElse g] this s
    = Some (Normal (length (heap s2)), alloc q s2).
Proof.
  intros this v e f g s r s1 errValue s2 q Hthis Hf Hr Hg Hq.
  cbn [chain call].
  assert (Hfirst : ResultAsync.andThen this f s
                   = Some (Normal (length (heap s1)),
                           alloc (Fulfilled (Err e)) s1)).
  { eapply andThen_on_Ok; [eassumption | eassumption |].
    cbn [eventual]. now rewrite Hr. }
  rewrite (bind_normal _ _ _ _ _ Hfirst).
  now rewrite (bind_normal _ _ _ _ _
                 (orElse_on_Err _ e g _ errValue s2 q
                    (lookup_alloc_new _ s1) Hg Hq)).
Qed.

(** X11: [map] transforms the success and [mapErr] the failure.  On a
    receiver resolved to [Ok v], [map(fn)] invokes [fn(v)] once and the new
    instance resolves to [Ok] of what it returned, or is rejected with what
    it threw; on a receiver resolved to [Err e], [mapErr(fn)] does the same
    with [fn(e)] and [Err]. *)
Theorem map_and_mapErr_transform_their_side :
  (forall this v (fn : Val -> M Val) s,
      heap s !! this = Some (mkResultAsync (Fulfilled (Ok v))) ->
      ResultAsync.map this fn s
      = match fn v s with
        | Some (Normal x, s1) =>
            Some (Normal (length (heap s1)), alloc (Fulfilled (Ok x)) s1)
        | Some (Throw fault, s1) =>
            Some (Normal (length (heap s1)), alloc (Rejected fault) s1)
        | None => None
        end) /\
  (forall this e (fn : Val -> M Val) s,
      heap s !! this = Some (mkResultAsync (Fulfilled (Err e))) ->
      ResultAsync.mapErr this fn s
      = match fn e s with
        | Some (Normal x, s1) =>
            Some (Normal (length (heap s1)), alloc (Fulfilled (Err x)) s1)
        | Some (Throw fault, s1) =>
            Some (Normal (length (heap s1)), alloc (Rejected fault) s1)
        | None => None
        end).
Proof.
  split; intros this x fn s Hthis;
    unfold ResultAsync.map, ResultAsync.mapErr; read_promise Hthis;
    cbn; unfold settle, bind;
    destruct (fn x s) as [[[y | fault] s1] |]; reflexivity.
Qed.

(** X12: a tap leaves the result as it is.  On a receiver resolved to
    [Ok v], [andTee(fn)] invokes [fn(v)] once and the new instance resolves
    to [Ok v] again, whatever [fn] returned; if [fn] throws, the new
    promise is rejected with the fault.  Dually for [orTee] on a receiver
    resolved to [Err e]. *)
Theorem tee_keeps_result_unless_fn_raises :
  (forall this v (fn : Val -> M Val) s,
      heap s !! this = Some (mkResultAsync (Fulfilled (Ok v))) ->
      ResultAsync.andTee this fn s
      = match fn v s with
        | Some (Normal _, s1) =>
            Some (Normal (length (heap s1)), alloc (Fulfilled (Ok v)) s1)
        | Some (Throw fault, s1) =>
            Some (Normal (length (heap s1)), alloc (Rejected fault) s1)
        | None => None
        end) /\
  (forall this e (fn : Val -> M Val) s,
      heap s !! this = Some (mkResultAsync (Fulfilled (Err e))) ->
      ResultAsync.orTee this fn s
      = match fn e s with
        | Some (Normal _, s1) =>
            Some (Normal (length (heap s1)), alloc (Fulfilled (Err e)) s1)
        | Some (Throw fault, s1) =>
            Some (Normal (length (heap s1)), alloc (Rejected fault) s1)
        | None => None
        end).
Proof.
  split; intros this x fn s Hthis;
    unfold ResultAsync.andTee, ResultAsync.orTee; read_promise Hthis;
    cbn; unfold settle, bind;
    destruct (fn x s) as [[[y | fault] s1] |]; reflexivity.
Qed.

(** X13: [andThen(x => ok(x))] and [orElse(e => err(e))] are identities.
    On every receiver, settled either way, rejected or never settling, the
    new instance wraps the promise the receiver wraps, and the world is as
    it was. *)
Theorem andThen_ok_and_orElse_err_are_identities :
  (forall this p s,
      heap s !! this = Some (mkResultAsync p) ->
      exists b s',
        ResultAsync.andThen this
          (fun x => let* r := ResultAsync.ok x in ret (ReturnedResultAsync r)) s
        = Some (Normal b, s') /\
        heap s' !! b = Some (mkResultAsync p) /\
        world s' = world s) /\
  (forall this p s,
      heap s !! this = Some (mkResultAsync p) ->
      exists b s',
        ResultAsync.orElse this
          (fun x => let* r := ResultAsync.err x in ret (ReturnedResultAsync r)) s
        = Some (Normal b, s') /\
        heap s' !! b = Some (mkResultAsync p) /\
        world s' = world s).
Proof.
  split; intros this p s Hthis;
    unfold ResultAsync.andThen, ResultAsync.orElse; read_promise Hthis;
    destruct p as [[v | e] | reason |]; cbn;
    unfold settle, bind, ResultAsync.ok, ResultAsync.err,
      ResultAsync.unwrapped, bind, ret, new_ResultAsync;
    rewrite ?get_promise_new; destruct s as [h w]; rewrite ?get_promise_new;
    (do 2 eexists; split; [reflexivity |]; split; [| reflexivity];
     unfold alloc; cbn [heap]; now apply list_lookup_middle).
Qed.

(** Runs of operators on a store [h] and world [w], all of whose effects
    are known: by evaluation. *)
Ltac crunch :=
  cbn [chain call];
  repeat first
    [ progress unfold ResultAsync.map, ResultAsync.mapErr, ResultAsync.andThen,
        ResultAsync.orElse, ResultAsync.andTee, ResultAsync.orTee,
        ResultAsync.toAsync, ResultAsync.ok, ResultAsync.err,
        ResultAsync.unwrapped, shaped, async, Promise_then, settle, bind, ret,
        throw, lift, get_promise, new_ResultAsync, alloc, Promise_resolve,
        ResultSync.map, ResultSync.mapErr, ResultSync.match_,
        ResultSync.okSync, ResultSync.errSync
    | progress cbn [heap world _promise]
    | rewrite list_lookup_middle by reflexivity
    | match goal with
      | H : ?x = _ |- context [?x] => rewrite H
      end ].

Ltac alike_done :=
  unfold alike; cbn [heap world];
  rewrite ?list_lookup_middle by reflexivity;
  first [exact I | repeat split; eauto].

(** X14: [map] and [mapErr] keep identities and compositions.  Mapping
    with the identity gives an instance that wraps the promise of the
    receiver.  For transformers that touch the world only, [map(f)] then
    [map(g)] resolves as [map] with [g] after [f], with the same world, on
    every receiver: a fault of [f] keeps [g] from running in both; and the
    same holds for [mapErr]. *)
Theorem map_identity_and_composition :
  (forall this p s,
      heap s !! this = Some (mkResultAsync p) ->
      ResultAsync.map this (fun x => ret x) s
      = Some (Normal (length (heap s)), alloc p s) /\
      ResultAsync.mapErr this (fun x => ret x) s
      = Some (Normal (length (heap s)), alloc p s)) /\
  (forall (f g : Val -> EffW Val W Val) this p s,
      heap s !! this = Some (mkResultAsync p) ->
      alike
        (chain [OpMap (fun x => lift (f x)); OpMap (fun x => lift (g x))]
           this s)
        (ResultAsync.map this (fun x => let* y := lift (f x) in lift (g y)) s) /\
      alike
        (chain [OpMapErr (fun x => lift (f x)); OpMapErr (fun x => lift (g x))]
           this s)
        (ResultAsync.mapErr this
           (fun x => let* y := lift (f x) in lift (g y)) s)).
Proof.
  split.
  - intros this p s Hthis. split;
      unfold ResultAsync.map, ResultAsync.mapErr; read_promise Hthis;
      now destruct p as [[v | e] | reason |].
  - intros f g this p [h w] Hthis. cbn [heap] in Hthis.
    split; destruct p as [[v | e] | reason |].
    all: try (crunch; alike_done; fail).
    + destruct (f v w) as [[[y | fault] w1] |] eqn:Hf;
        [destruct (g y w1) as [[[z | fault] w2] |] eqn:Hg | |];
        crunch; alike_done.
    + destruct (f e w) as [[[y | fault] w1] |] eqn:Hf;
        [destruct (g y w1) as [[[z | fault] w2] |] eqn:Hg | |];
        crunch; alike_done.
Qed.

(** X15: [andThen] is associative.  For transformers that touch the world
    only, [a.andThen(f).andThen(g)] and [a.andThen(x => f(x).andThen(g))]
    resolve alike and leave the same world, on every receiver, with [g] in
    any of the three shapes: when [f] fails or throws, [g] runs in
    neither. *)
Theorem andThen_associative :
  forall (f g : Val -> EffW Val W (Result Val)) (shape : Shape) this p s,
    heap s !! this = Some (mkResultAsync p) ->
    alike
      (chain [OpAndThen (shaped AsResultAsync f); OpAndThen (shaped shape g)]
         this s)
      (ResultAsync.andThen this
         (fun x =>
            let* res := lift (f x) in
            let* r := ResultAsync.toAsync res in
            let* r2 := ResultAsync.andThen r (shaped shape g) in
            ret (ReturnedResultAsync r2)) s).
Proof.
  intros f g shape this p [h w] Hthis. cbn [heap] in Hthis.
  destruct p as [[v | e] | reason |].
  all: try (crunch; alike_done; fail).
  destruct (f v w) as [[[[y | e] | fault] w1] |] eqn:Hf.
  all: try (crunch; alike_done; fail).
  destruct shape;
    destruct (g y w1) as [[[res | fault] w2] |] eqn:Hg;
    crunch; alike_done.
Qed.
End Operators.

(** ** The safe-call adapter *)

Section SafeTry.
Context {Val W : Type} {thenables : Thenables Val Val}.
Local Abbreviation M := (Eff Val W).
Local Abbreviation St := (State Val W).
Implicit Types (s : St) (a b this : Ref) (p : Promise Val (Result Val)).

(** X16: what [safeTry] returns is never rejected.  When [op] returns a
    promise, however it settles, and the translator, if there is one,
    returns on every fault, the adapted callable returns an instance whose
    promise is fulfilled or never settles.  So [isOk] on it never rejects;
    and [unwrapOr] on it never rejects either when neither the fallback
    value nor the value the promise of [op] was fulfilled with is a
    thenable. *)
Theorem safeTry_result_is_never_rejected :
  forall (safeArgs : SafeArgs Val W) args s q0 s1,
    try_ safeArgs args s = Some (Normal q0, s1) ->
    (forall translate, catch_ safeArgs = Some translate ->
       forall fault s2, exists e s3, translate fault s2 = Some (Normal e, s3)) ->
    exists r q s',
      ResultAsync.safeTry safeArgs args s = Some (Normal r, s') /\
      heap s' !! r = Some (mkResultAsync q) /\
      ((exists res, q = Fulfilled res) \/ q = Pending) /\
      (exists answer : Promise Val bool,
          ResultAsync.isOk r s' = Some (Normal answer, s') /\
          forall fault, answer <> Rejected fault) /\
      forall value,
        resolution value = Plain value ->
        (forall x, q0 = Fulfilled x -> resolution x = Plain x) ->
        exists q',
          ResultAsync.unwrapOr r value s' = Some (Normal q', s') /\
          forall fault, q' <> Rejected fault.
Proof.
  intros safeArgs args s q0 s1 Htry Htr.
  assert (Hrun : exists q s2,
             ResultAsync.safeTry safeArgs args s
             = Some (Normal (length (heap s2)), alloc q s2) /\
             ((exists x, q = Fulfilled (Ok x) /\ q0 = Fulfilled x) \/
              (exists e, q = Fulfilled (Err e)) \/ q = Pending)).
  { unfold ResultAsync.safeTry. rewrite (bind_normal _ _ _ _ _ Htry).
    destruct q0 as [x | fault |]; cbn.
    - do 2 eexists. split; [reflexivity | left; eauto].
    - unfold settle, bind. destruct (catch_ safeArgs) as [translate |] eqn:Hc.
      + destruct (Htr translate eq_refl fault s1) as (e & s3 & ->).
        do 2 eexists. split; [reflexivity | right; left; eauto].
      + do 2 eexists. split; [reflexivity | right; left; eauto].
    - do 2 eexists. split; [reflexivity | right; right; reflexivity]. }
  destruct Hrun as (q & s2 & Hrun & Hq).
  exists (length (heap s2)), q, (alloc q s2).
  repeat apply conj; [exact Hrun | apply lookup_alloc_new | | |].
  - destruct Hq as [(x & -> & _) | [(e & ->) | ->]]; eauto.
  - unfold ResultAsync.isOk, async, settle.
    read_promise (lookup_alloc_new q s2).
    destruct Hq as [(x & -> & _) | [(e & ->) | ->]]; cbn;
      eexists; (split; [reflexivity | discriminate]).
  - intros value Hvalue Hplain.
    unfold ResultAsync.unwrapOr, async, settle.
    read_promise (lookup_alloc_new q s2).
    destruct Hq as [(x & -> & Hq0) | [(e & ->) | ->]]; cbn;
      unfold settle, ret; rewrite ?(Hplain _ Hq0), ?Hvalue;
      eexists; (split; [reflexivity | discriminate]).
Qed.

(** X17: the translator of [safeTry] runs on a rejection only, and its own
    fault is not caught.  When the promise [op] returned never settles,
    the instance never settles and the translator is not invoked.  When it
    is rejected with [f] and [translate(f)] throws [g], the promise of the
    instance is rejected with [g]. *)
Theorem safeTry_translator_runs_on_rejection_only :
  (forall (safeArgs : SafeArgs Val W) args s s1,
      try_ safeArgs args s = Some (Normal Pending, s1) ->
      ResultAsync.safeTry safeArgs args s
      = Some (Normal (length (heap s1)), alloc Pending s1)) /\
  (forall (safeArgs : SafeArgs Val W) args s f s1 translate g s2,
      try_ safeArgs args s = Some (Normal (Rejected f), s1) ->
      catch_ safeArgs = Some translate ->
      translate f s1 = Some (Throw g, s2) ->
      ResultAsync.safeTry safeArgs args s
      = Some (Normal (length (heap s2)), alloc (Rejected g) s2)).
Proof.
  split.
  - intros safeArgs args s s1 Htry. unfold ResultAsync.safeTry.
    now rewrite (bind_normal _ _ _ _ _ Htry).
  - intros safeArgs args s f s1 translate g s2 Htry Hc Htr.
    unfold ResultAsync.safeTry.
    rewrite (bind_normal _ _ _ _ _ Htry), Hc.
    cbn. unfold settle, bind. now rewrite Htr.
Qed.
End SafeTry.

(** ** The further properties on the fixtures *)

Section FurtherWitnesses.
Import Fixtures.
Local Abbreviation M := (Eff JsValue Calls).

Lemma unfulfilled_receiver_passes_through_chain_witness :
  heap rejectedBoom !! 0 = Some (mkResultAsync (Rejected (Error_ "boom"))) /\
  (forall res : Result JsValue, Rejected (Error_ "boom") <> Fulfilled res) /\
  exists b,
    chain spiedChain 0 rejectedBoom
    = Some (Normal b, allocs 4 (Rejected (Error_ "boom")) rejectedBoom) /\
    heap (allocs 4 (Rejected (Error_ "boom")) rejectedBoom) !! b
    = Some (mkResultAsync (Rejected (Error_ "boom"))) /\
    world (allocs 4 (Rejected (Error_ "boom")) rejectedBoom) = [].
Proof.
  split; [reflexivity |]. split; [intros res; discriminate |].
  exact (@unfulfilled_receiver_passes_through_chain JsValue Calls
           spiedChain 0 (Rejected (Error_ "boom")) rejectedBoom eq_refl
           (fun res H => eq_ind (Rejected (Error_ "boom"))
                           (fun q => match q with
                                     | Rejected _ => True
                                     | _ => False
                                     end) I _ H)).
Defined.

Lemma chain_skips_steps_of_other_variant_witness :
  (forallb on_success successSteps = true /\
   exists b,
     chain successSteps 0 errOriginal
     = Some (Normal b,
             allocs 3 (Fulfilled (Err (Str "original error"))) errOriginal) /\
     heap (allocs 3 (Fulfilled (Err (Str "original error"))) errOriginal) !! b
     = Some (mkResultAsync (Fulfilled (Err (Str "original error")))) /\
     world (allocs 3 (Fulfilled (Err (Str "original error"))) errOriginal)
     = []) /\
  (forallb (fun op => negb (on_success op)) failureSteps = true /\
   exists b,
     chain failureSteps 0 ok10
     = Some (Normal b, allocs 3 (Fulfilled (Ok (Num 10))) ok10) /\
     heap (allocs 3 (Fulfilled (Ok (Num 10))) ok10) !! b
     = Some (mkResultAsync (Fulfilled (Ok (Num 10)))) /\
     world (allocs 3 (Fulfilled (Ok (Num 10))) ok10) = []).
Proof.
  pose proof (@chain_skips_steps_of_other_variant JsValue Calls)
    as (Herr & Hok).
  split; (split; [reflexivity |]).
  - exact (Herr successSteps 0 (Str "original error") errOriginal
             eq_refl eq_refl).
  - exact (Hok failureSteps 0 (Num 10) ok10 eq_refl eq_refl).
Defined.

Lemma consumers_pass_rejection_through_witness :
  (heap rejectedBoom !! 0 = Some (mkResultAsync (Rejected (Error_ "boom"))) /\
   ResultAsync.unwrapOr 0 (Num 0) rejectedBoom
   = Some (Normal (Rejected (Error_ "boom")), rejectedBoom)) /\
  (heap pendingForever !! 0 = Some (mkResultAsync Pending) /\
   ResultAsync.isOk 0 pendingForever = Some (Normal Pending, pendingForever)).
Proof.
  pose proof (@consumers_pass_rejection_through JsValue Calls
                thenables_JsValue) as (Hrej & Hpend).
  split; (split; [reflexivity |]).
  - destruct (Hrej 0 (Error_ "boom") rejectedBoom eq_refl)
      as (_ & _ & _ & HunwrapOr & _).
    exact (HunwrapOr (Num 0)).
  - destruct (Hpend 0 pendingForever eq_refl) as (HisOk & _).
    exact HisOk.
Defined.

Lemma match_runs_callback_of_variant_witness :
  (heap ok10 !! 0 = Some (mkResultAsync (Fulfilled (Ok (Num 10)))) /\
   ResultAsync.match_ 0 (mockFn (Str "yes")) faulty ok10
   = Some (Normal (Fulfilled (Str "yes")), mkState (heap ok10) [Num 10]) /\
   ResultAsync.match_ 0 (mockFn (PromiseOf (Rejected (Error_ "boom")))) faulty
     ok10
   = Some (Normal (Rejected (Error_ "boom")), mkState (heap ok10) [Num 10])) /\
  (heap errOriginal !! 0
   = Some (mkResultAsync (Fulfilled (Err (Str "original error")))) /\
   ResultAsync.match_ 0 (mockFn (Str "yes")) faulty errOriginal
   = Some (Normal (Rejected (Error_ "bad transformer")), errOriginal) /\
   ResultAsync.match_ 0 faulty (mockFn (PromiseOf (Fulfilled (Str "no"))))
     errOriginal
   = Some (Normal (Fulfilled (Str "no")),
           mkState (heap errOriginal) [Str "original error"])).
Proof.
  pose proof (@match_runs_callback_of_variant JsValue Calls) as (Hok & Herr).
  split; (split; [reflexivity | split]).
  - exact (Hok JsValue thenables_JsValue 0 (Num 10) (mockFn (Str "yes")) faulty
             ok10 eq_refl).
  - exact (Hok JsValue thenables_JsValue 0 (Num 10)
             (mockFn (PromiseOf (Rejected (Error_ "boom")))) faulty ok10
             eq_refl).
  - exact (Herr JsValue thenables_JsValue 0 (Str "original error")
             (mockFn (Str "yes")) faulty errOriginal eq_refl).
  - exact (Herr JsValue thenables_JsValue 0 (Str "original error") faulty
             (mockFn (PromiseOf (Fulfilled (Str "no")))) errOriginal eq_refl).
Defined.

Lemma orElse_chains_what_fn_produces_witness :
  (heap errOriginal !! 0
   = Some (mkResultAsync (Fulfilled (Err (Str "original error")))) /\
   asyncDouble (Str "original error") errOriginal
   = Some (Normal (ReturnedPromise (Fulfilled (Ok NaN))),
           alloc (Fulfilled (Ok NaN)) errOriginal) /\
   ResultAsync.orElse 0 asyncDouble errOriginal
   = Some (Normal 2,
           alloc (Fulfilled (Ok NaN))
             (alloc (Fulfilled (Ok NaN)) errOriginal))) /\
  ResultAsync.orElse 0 (thenOk (Str "recovered")) errOriginal
  = Some (Normal 2,
          alloc (Fulfilled (Ok (Str "recovered")))
            (alloc (Fulfilled (Ok (Str "recovered"))) errOriginal)) /\
  ResultAsync.orElse 0 (thenErr (Str "new error")) errOriginal
  = Some (Normal 2,
          alloc (Fulfilled (Err (Str "new error")))
            (alloc (Fulfilled (Err (Str "new error"))) errOriginal)).
Proof.
  pose proof (@orElse_chains_what_fn_produces JsValue Calls)
    as (Hgen & Hok & Herr).
  split; [repeat (split; [reflexivity |]) | split].
  - exact (Hgen 0 (Str "original error") asyncDouble errOriginal _ _ _
             eq_refl eq_refl eq_refl).
  - exact (Hok 0 (Str "original error") (Str "recovered") errOriginal eq_refl).
  - exact (Herr 0 (Str "original error") (Str "new error") errOriginal eq_refl).
Defined.

Lemma orElse_after_andThen_handles_failure_of_fn_witness :
  heap ok10 !! 0 = Some (mkResultAsync (Fulfilled (Ok (Num 10)))) /\
  thenErr (Str "new error") (Num 10) ok10
  = Some (Normal (ReturnedResultAsync 1),
          alloc (Fulfilled (Err (Str "new error"))) ok10) /\
  chain [OpAndThen (thenErr (Str "new error"));
         OpOrElse (mockFn (ReturnedResult (Ok (Str "recovered"))))] 0 ok10
  = Some (Normal 3,
          alloc (Fulfilled (Ok (Str "recovered")))
            (mkState
               (heap (alloc (Fulfilled (Err (Str "new error")))
                        (alloc (Fulfilled (Err (Str "new error"))) ok10)))
               [Str "new error"])).
Proof.
  split; [reflexivity |]. split; [reflexivity |].
  exact (@orElse_after_andThen_handles_failure_of_fn JsValue Calls
           0 (Num 10) (Str "new error") (thenErr (Str "new error"))
           (mockFn (ReturnedResult (Ok (Str "recovered")))) ok10 1 _ _ _ _
           eq_refl eq_refl eq_refl eq_refl eq_refl).
Defined.

Lemma map_and_mapErr_transform_their_side_witness :
  (heap ok10 !! 0 = Some (mkResultAsync (Fulfilled (Ok (Num 10)))) /\
   ResultAsync.map 0 (mockFn (Num 20)) ok10
   = Some (Normal 1,
           alloc (Fulfilled (Ok (Num 20))) (mkState (heap ok10) [Num 10]))) /\
  (heap errOriginal !! 0
   = Some (mkResultAsync (Fulfilled (Err (Str "original error")))) /\
   ResultAsync.mapErr 0 toCustomError errOriginal
   = Some (Normal 1,
           alloc (Fulfilled (Err (CustomError (Str "original error"))))
             errOriginal)).
Proof.
  pose proof (@map_and_mapErr_transform_their_side JsValue Calls)
    as (Hmap & HmapErr).
  split; (split; [reflexivity |]).
  - exact (Hmap 0 (Num 10) (mockFn (Num 20)) ok10 eq_refl).
  - exact (HmapErr 0 (Str "original error") toCustomError errOriginal eq_refl).
Defined.

Lemma tee_keeps_result_unless_fn_raises_witness :
  (heap ok10 !! 0 = Some (mkResultAsync (Fulfilled (Ok (Num 10)))) /\
   ResultAsync.andTee 0 (mockFn (Str "dropped")) ok10
   = Some (Normal 1,
           alloc (Fulfilled (Ok (Num 10))) (mkState (heap ok10) [Num 10]))) /\
  (heap errOriginal !! 0
   = Some (mkResultAsync (Fulfilled (Err (Str "original error")))) /\
   ResultAsync.orTee 0 faulty errOriginal
   = Some (Normal 1, alloc (Rejected (Error_ "bad transformer")) errOriginal)).
Proof.
  pose proof (@tee_keeps_result_unless_fn_raises JsValue Calls)
    as (Hand & Hor).
  split; (split; [reflexivity |]).
  - exact (Hand 0 (Num 10) (mockFn (Str "dropped")) ok10 eq_refl).
  - exact (Hor 0 (Str "original error") faulty errOriginal eq_refl).
Defined.

Lemma andThen_ok_and_orElse_err_are_identities_witness :
  (heap ok10 !! 0 = Some (mkResultAsync (Fulfilled (Ok (Num 10)))) /\
   exists b s',
     ResultAsync.andThen 0
       (fun x => let* r := ResultAsync.ok x in ret (ReturnedResultAsync r))
       ok10
     = Some (Normal b, s') /\
     heap s' !! b = Some (mkResultAsync (Fulfilled (Ok (Num 10)))) /\
     world s' = []) /\
  (heap errOriginal !! 0
   = Some (mkResultAsync (Fulfilled (Err (Str "original error")))) /\
   exists b s',
     ResultAsync.orElse 0
       (fun x => let* r := ResultAsync.err x in ret (ReturnedResultAsync r))
       errOriginal
     = Some (Normal b, s') /\
     heap s' !! b
     = Some (mkResultAsync (Fulfilled (Err (Str "original error")))) /\
     world s' = []) /\
  (heap errOriginal !! 0
   = Some (mkResultAsync (Fulfilled (Err (Str "original error")))) /\
   exists b s',
     ResultAsync.andThen 0
       (fun x => let* r := ResultAsync.ok x in ret (ReturnedResultAsync r))
       errOriginal
     = Some (Normal b, s') /\
     heap s' !! b
     = Some (mkResultAsync (Fulfilled (Err (Str "original error")))) /\
     world s' = []) /\
  (heap ok10 !! 0 = Some (mkResultAsync (Fulfilled (Ok (Num 10)))) /\
   exists b s',
     ResultAsync.orElse 0
       (fun x => let* r := ResultAsync.err x in ret (ReturnedResultAsync r))
       ok10
     = Some (Normal b, s') /\
     heap s' !! b = Some (mkResultAsync (Fulfilled (Ok (Num 10)))) /\
     world s' = []).
Proof.
  pose proof (@andThen_ok_and_orElse_err_are_identities JsValue Calls)
    as (Hand & Hor).
  repeat apply conj; try reflexivity.
  - exact (Hand 0 (Fulfilled (Ok (Num 10))) ok10 eq_refl).
  - exact (Hor 0 (Fulfilled (Err (Str "original error"))) errOriginal eq_refl).
  - exact (Hand 0 (Fulfilled (Err (Str "original error"))) errOriginal
             eq_refl).
  - exact (Hor 0 (Fulfilled (Ok (Num 10))) ok10 eq_refl).
Defined.

Lemma map_identity_and_composition_witness :
  heap ok10 !! 0 = Some (mkResultAsync (Fulfilled (Ok (Num 10)))) /\
  ResultAsync.map 0 (fun x => ret x) ok10
  = Some (Normal 1, alloc (Fulfilled (Ok (Num 10))) ok10) /\
  alike
    (chain [OpMap (fun x => lift (plus5 x)); OpMap (fun x => lift (plus5 x))]
       0 ok10)
    (ResultAsync.map 0
       (fun x => let* y := lift (plus5 x) in lift (plus5 y)) ok10).
Proof.
  pose proof (@map_identity_and_composition JsValue Calls) as (Hid & Hcomp).
  split; [reflexivity |]. split.
  - exact (proj1 (Hid 0 _ ok10 eq_refl)).
  - exact (proj1 (Hcomp plus5 plus5 0 _ ok10 eq_refl)).
Defined.

Lemma andThen_associative_witness :
  heap ok10 !! 0 = Some (mkResultAsync (Fulfilled (Ok (Num 10)))) /\
  alike
    (chain [OpAndThen (shaped AsResultAsync doubled);
            OpAndThen (shaped AsPromise refused)] 0 ok10)
    (ResultAsync.andThen 0
       (fun x =>
          let* res := lift (doubled x) in
          let* r := ResultAsync.toAsync res in
          let* r2 := ResultAsync.andThen r (shaped AsPromise refused) in
          ret (ReturnedResultAsync r2)) ok10).
Proof.
  split; [reflexivity |].
  exact (@andThen_associative JsValue Calls doubled refused AsPromise
           0 _ ok10 eq_refl).
Defined.

Lemma safeTry_result_is_never_rejected_witness :
  try_ (mkSafeArgs (rejects "boom") (Some toCustomError)) [] initial
  = Some (Normal (Rejected (Error_ "boom")), initial) /\
  exists r q s',
    ResultAsync.safeTry (mkSafeArgs (rejects "boom") (Some toCustomError))
      [] initial
    = Some (Normal r, s') /\
    heap s' !! r = Some (mkResultAsync q) /\
    ((exists res, q = Fulfilled res) \/ q = Pending) /\
    (exists answer : Promise JsValue bool,
        ResultAsync.isOk r s' = Some (Normal answer, s') /\
        forall fault, answer <> Rejected fault) /\
    exists q',
      ResultAsync.unwrapOr r (Num 0) s' = Some (Normal q', s') /\
      forall fault, q' <> Rejected fault.
Proof.
  split; [reflexivity |].
  destruct (@safeTry_result_is_never_rejected JsValue Calls thenables_JsValue
              (mkSafeArgs (rejects "boom") (Some toCustomError)) [] initial
              (Rejected (Error_ "boom")) initial eq_refl)
    as (r & q & s' & Hrun & Hr & Hq & HisOk & HunwrapOr).
  - intros translate Htr fault s2. cbn in Htr.
    exists (CustomError fault), s2.
    exact (f_equal (fun o => match o with
                             | Some t => t fault s2
                             | None => None
                             end) (eq_sym Htr)).
  - exists r, q, s'. repeat apply conj; try assumption.
    apply (HunwrapOr (Num 0) eq_refl). intros x Hx. discriminate Hx.
Defined.

Lemma safeTry_translator_runs_on_rejection_only_witness :
  ResultAsync.safeTry (mkSafeArgs hangs (Some faulty)) [] initial
  = Some (Normal 0, alloc Pending initial) /\
  ResultAsync.safeTry (mkSafeArgs (rejects "boom") (Some faulty)) [] initial
  = Some (Normal 0, alloc (Rejected (Error_ "bad transformer")) initial).
Proof.
  pose proof (@safeTry_translator_runs_on_rejection_only JsValue Calls)
    as (Hpend & Hthrow).
  split.
  - exact (Hpend (mkSafeArgs hangs (Some faulty)) [] initial initial eq_refl).
  - exact (Hthrow (mkSafeArgs (rejects "boom") (Some faulty)) [] initial
             (Error_ "boom") initial faulty (Error_ "bad transformer") initial
             eq_refl eq_refl eq_refl).
Defined.
End FurtherWitnesses.
